(** * httpcore/_async/http_proxy.py: forwarding and CONNECT-tunnel proxy connections

  A shallow embedding of the proxy connection layer: [merge_headers],
  the connection factory [create_connection], the forwarding connection
  and the tunnel connection with its lazy, lock-guarded handshake. *)

From Stdlib Require Import Strings.Byte DecimalString.
From stdpp Require Import gmap strings list.

Local Open Scope Z_scope.

(** ** Byte strings *)

(** Python [bytes] values are sequences of octets. *)
Abbreviation bytes := (list byte).

(** [b "Host"] is the literal [b"Host"]. *)
Definition b (s : string) : bytes := String.list_byte_of_string s.

#[global] Instance byte_eq_dec : EqDecision byte := Byte.byte_eq_dec.
#[global] Instance byte_countable : Countable byte :=
  inj_countable Byte.to_N Byte.of_N Byte.of_to_N.

(** [bytes.lower()] on one octet: only the ASCII letters [A]..[Z] move. *)
Definition byte_lower (c : byte) : byte :=
  let n := Byte.to_N c in
  if ((65 <=? n) && (n <=? 90))%N then default c (Byte.of_N (n + 32)) else c.

Definition lower (s : bytes) : bytes := byte_lower <$> s.

(** ** Headers *)

Abbreviation Headers := (list (bytes * bytes)).

(** Modelled from the spec: [enforce_headers] of [_models] is not part of the
  sources at hand.  The spec gives the proxy header set as a mapping or as
  ordered pairs; on the normalised form used here (ordered pairs of byte
  strings) it returns the pairs, and the empty list for [None]. *)
Definition enforce_headers (value : option Headers) : Headers :=
  match value with
  | None => []
  | Some hs => hs
  end.

Module HeaderMerge.

(** [merge_headers(default_headers, override_headers)], lines 32-48. *)
Definition merge_headers (default_headers override_headers : option Headers)
  : Headers :=
  let default_headers := match default_headers with None => [] | Some l => l end in
  let override_headers := match override_headers with None => [] | Some l => l end in
  let has_override : gset bytes :=
    list_to_set ((λ kv : bytes * bytes, lower kv.1) <$> override_headers) in
  let default_headers :=
    filter (λ kv : bytes * bytes, lower kv.1 ∉ has_override) default_headers in
  default_headers ++ override_headers.

(** The algorithm in the words of the specification: the defaults whose
    lower-cased key is no lower-cased override key, then the overrides. *)
Definition lowered_keys (hs : Headers) : list bytes :=
  (λ kv : bytes * bytes, lower kv.1) <$> hs.

Definition spec_merge (defaults overrides : Headers) : Headers :=
  filter (λ kv : bytes * bytes, lower kv.1 ∉ lowered_keys overrides) defaults
  ++ overrides.

(** Number of entries of [hs] whose key is [k] byte for byte. *)
Definition count_key (k : bytes) (hs : Headers) : nat :=
  length (filter (λ kv : bytes * bytes, kv.1 = k) hs).

(** Number of entries of [hs] whose key equals [k] up to ASCII case. *)
Definition count_key_ci (k : bytes) (hs : Headers) : nat :=
  length (filter (λ kv : bytes * bytes, lower kv.1 = lower k) hs).

End HeaderMerge.

(** ** Text helpers *)

(** [b"%d" % n] and ["%d" % n]: the decimal digits of an integer. *)
Definition str_of_int (n : Z) : string := NilZero.string_of_int (Z.to_int n).
Definition bytes_of_int (n : Z) : bytes := String.list_byte_of_string (str_of_int n).

Definition is_ascii (c : byte) : bool := (Byte.to_N c <? 128)%N.

(** [s.decode("ascii", errors="ignore")]: octets outside ASCII are skipped. *)
Definition decode_ascii_ignore (s : bytes) : string :=
  String.string_of_list_byte (filter (λ c, is_ascii c = true) s).

(** [s.decode("ascii")]: fails on the first octet outside ASCII. *)
Definition decode_ascii (s : bytes) : option string :=
  if forallb is_ascii s then Some (String.string_of_list_byte s) else None.

(** ** Data model *)

(** A Python [float] is carried as its binary64 bit pattern: this module
  passes timeouts and expiries on and never computes with them. *)
Abbreviation float := N.

(** [Origin]: scheme, host and port; equality compares the three fields. *)
Record Origin : Type := mkOrigin {
  origin_scheme : bytes;
  origin_host : bytes;
  origin_port : Z
}.

#[global] Instance Origin_eq_dec : EqDecision Origin.
Proof. solve_decision. Defined.

(** [origin == other] *)
Definition origin_eqb (x y : Origin) : bool := bool_decide (x = y).

Record URL : Type := mkURL {
  url_scheme : bytes;
  url_host : bytes;
  url_port : option Z;
  url_target : bytes
}.

(** Modelled from the spec: [URL.__bytes__] of [_models] is not part of the
  sources at hand; the spec has the full URL rendered in absolute form. *)
Definition URL_bytes (u : URL) : bytes :=
  url_scheme u ++ b "://" ++ url_host u
  ++ match url_port u with
     | None => []
     | Some p => b ":" ++ bytes_of_int p
     end
  ++ url_target u.

(** The TLS object of an upgraded stream, with the protocol ALPN settled on. *)
Record SSLObject : Type := mkSSLObject {
  selected_alpn_protocol : option string
}.

(** A network stream; [get_extra_info("ssl_object")] is [ssl_object]. *)
Record NetworkStream : Type := mkNetworkStream {
  stream_id : nat;
  ssl_object : option SSLObject
}.

(** The entries of an [extensions] mapping that this module reads, each
  with the type httpcore gives it; [None] is an absent key. *)
Record Extensions : Type := mkExtensions {
  ext_timeout : option (gmap string (option float));
  ext_reason_phrase : option bytes;
  ext_network_stream : option NetworkStream
}.

Definition no_extensions : Extensions := mkExtensions None None None.

Record Request : Type := mkRequest {
  req_method : bytes;
  req_url : URL;
  req_headers : Headers;
  req_stream : list bytes;
  req_extensions : Extensions
}.

Record Response : Type := mkResponse {
  resp_status : Z;
  resp_headers : Headers;
  resp_stream : list bytes;
  resp_extensions : Extensions
}.

Inductive Exception : Type :=
  | ProxyError (msg : string)
  | KeyError (key : string)
  | UnicodeDecodeError
  | Foreign (name : string).   (* raised by a collaborator: backend or delegate *)

(** *** TLS configuration objects

  An [ssl.SSLContext] is a mutable object that the caller of the pool may
  keep a reference to, so contexts live in a store and are named by their
  address. *)
Record SSLContext : Type := mkSSLContext {
  alpn_protocols : list string;
  check_hostname : bool;
  verify_mode : Z
}.

Abbreviation ctxref := nat.

(** [ctx.set_alpn_protocols(protocols)] *)
Definition set_alpn_protocols (protocols : list string) (c : SSLContext) : SSLContext :=
  mkSSLContext protocols (check_hostname c) (verify_mode c).

(** Modelled from the spec: [default_ssl_context] of [_ssl] is not part of the
  sources at hand; it yields a fresh library-default TLS configuration. *)
Definition default_ssl_context_value : SSLContext := mkSSLContext [] true 2.

(** Settings of the pool that are handed on to the proxy-facing connection. *)
Record Settings : Type := mkSettings {
  keepalive_expiry : option float;
  retries : Z;
  local_address : option string;
  uds : option string;
  network_backend : option nat;
  socket_options : option (list (Z * Z * Z))
}.

(** The connection behind [self._connection]: the proxy-facing
  [AsyncHTTPConnection] or, once tunnelled, an HTTP/1.1 or HTTP/2 adapter.
  Each is owned by one proxy connection only, so its [closed] state is
  kept in the value. *)
Inductive Connection : Type :=
  | AsyncHTTPConnection (origin : Origin) (ssl_context : option ctxref)
      (settings : Settings) (closed : bool)
  | AsyncHTTP11Connection (origin : Origin) (stream : NetworkStream)
      (keepalive : option float) (closed : bool)
  | AsyncHTTP2Connection (origin : Origin) (stream : NetworkStream)
      (keepalive : option float) (closed : bool).

(** Modelled from the spec: the classes behind [ConnectionInterface] are not
  part of the sources at hand; closing a connection leaves it closed and
  [is_closed] reports that. *)
Definition conn_aclose (c : Connection) : Connection :=
  match c with
  | AsyncHTTPConnection o s st _ => AsyncHTTPConnection o s st true
  | AsyncHTTP11Connection o s k _ => AsyncHTTP11Connection o s k true
  | AsyncHTTP2Connection o s k _ => AsyncHTTP2Connection o s k true
  end.

Definition conn_is_closed (c : Connection) : bool :=
  match c with
  | AsyncHTTPConnection _ _ _ cl
  | AsyncHTTP11Connection _ _ _ cl
  | AsyncHTTP2Connection _ _ _ cl => cl
  end.

Definition is_proxy_facing (c : Connection) : bool :=
  match c with AsyncHTTPConnection _ _ _ _ => true | _ => false end.

Definition is_http11 (c : Connection) : bool :=
  match c with AsyncHTTP11Connection _ _ _ _ => true | _ => false end.

Definition is_http2 (c : Connection) : bool :=
  match c with AsyncHTTP2Connection _ _ _ _ => true | _ => false end.

(** ** The connection factory and the forwarding connection *)

Module Forward.

(** [AsyncForwardHTTPConnection] *)
Record t : Type := mk {
  _connection : Connection;
  _proxy_origin : Origin;
  _proxy_headers : Headers;
  _remote_origin : Origin
}.

(** [__init__], lines 181-206. *)
Definition init (proxy_origin remote_origin : Origin)
    (proxy_ssl_context : option ctxref) (proxy_headers : option Headers)
    (settings : Settings) : t :=
  {| _connection := AsyncHTTPConnection proxy_origin proxy_ssl_context settings false;
     _proxy_origin := proxy_origin;
     _proxy_headers := enforce_headers proxy_headers;
     _remote_origin := remote_origin |}.

(** The request that [handle_async_request] builds, lines 209-222. *)
Definition proxy_request (self : t) (request : Request) : Request :=
  let headers :=
    HeaderMerge.merge_headers (Some (_proxy_headers self)) (Some (req_headers request)) in
  let url :=
    mkURL (origin_scheme (_proxy_origin self)) (origin_host (_proxy_origin self))
          (Some (origin_port (_proxy_origin self))) (URL_bytes (req_url request)) in
  mkRequest (req_method request) url headers (req_stream request)
            (req_extensions request).

(** [handle_async_request], lines 208-223; [send] stands for the
    proxy-facing connection's own [handle_async_request]. *)
Definition handle_async_request
    (send : Connection → Request → Exception + Response)
    (self : t) (request : Request) : Exception + Response :=
  send (_connection self) (proxy_request self request).

(** [can_handle_request], lines 225-226. *)
Definition can_handle_request (self : t) (origin : Origin) : bool :=
  origin_eqb origin (_remote_origin self).

Definition aclose (self : t) : t :=
  mk (conn_aclose (_connection self)) (_proxy_origin self) (_proxy_headers self)
     (_remote_origin self).

Definition is_closed (self : t) : bool := conn_is_closed (_connection self).

End Forward.

Module Tunnel.

(** [AsyncTunnelHTTPConnection]; [_connect_lock] holds the task that owns
    the lock, if any. *)
Record t : Type := mk {
  _connection : Connection;
  _proxy_origin : Origin;
  _remote_origin : Origin;
  _ssl_context : option ctxref;
  _proxy_ssl_context : option ctxref;
  _proxy_headers : Headers;
  _keepalive_expiry : option float;
  _http1 : bool;
  _http2 : bool;
  _connect_lock : option nat;
  _connected : bool
}.

(** [__init__], lines 251-286. *)
Definition init (proxy_origin remote_origin : Origin)
    (ssl_context proxy_ssl_context : option ctxref)
    (proxy_headers : option Headers) (http1 http2 : bool)
    (settings : Settings) : t :=
  {| _connection := AsyncHTTPConnection proxy_origin proxy_ssl_context settings false;
     _proxy_origin := proxy_origin;
     _remote_origin := remote_origin;
     _ssl_context := ssl_context;
     _proxy_ssl_context := proxy_ssl_context;
     _proxy_headers := enforce_headers proxy_headers;
     _keepalive_expiry := keepalive_expiry settings;
     _http1 := http1;
     _http2 := http2;
     _connect_lock := None;
     _connected := false |}.

(** [can_handle_request], lines 368-369. *)
Definition can_handle_request (self : t) (origin : Origin) : bool :=
  origin_eqb origin (_remote_origin self).

Definition set_connection (c : Connection) (self : t) : t :=
  mk c (_proxy_origin self) (_remote_origin self) (_ssl_context self)
     (_proxy_ssl_context self) (_proxy_headers self) (_keepalive_expiry self)
     (_http1 self) (_http2 self) (_connect_lock self) (_connected self).

Definition set_connected (v : bool) (self : t) : t :=
  mk (_connection self) (_proxy_origin self) (_remote_origin self)
     (_ssl_context self) (_proxy_ssl_context self) (_proxy_headers self)
     (_keepalive_expiry self) (_http1 self) (_http2 self) (_connect_lock self) v.

Definition set_lock (l : option nat) (self : t) : t :=
  mk (_connection self) (_proxy_origin self) (_remote_origin self)
     (_ssl_context self) (_proxy_ssl_context self) (_proxy_headers self)
     (_keepalive_expiry self) (_http1 self) (_http2 self) l (_connected self).

(** [aclose] and [is_closed], lines 371-372 and 386-387. *)
Definition aclose (self : t) : t := set_connection (conn_aclose (_connection self)) self.
Definition is_closed (self : t) : bool := conn_is_closed (_connection self).

(** The configuration a tunnel is built with, as one value. *)
Definition configuration (self : t) :=
  (_proxy_origin self, _remote_origin self, _ssl_context self,
   _proxy_ssl_context self, _proxy_headers self, _keepalive_expiry self,
   _http1 self, _http2 self).

(** Lines 289-290: the connect timeout carried by the request. *)
Definition connect_timeout (request : Request) : option float :=
  let timeouts := default ∅ (ext_timeout (req_extensions request)) in
  default None (timeouts !! "connect"%string).

(** Line 294: [b"%b:%d" % (host, port)]. *)
Definition target (self : t) : bytes :=
  origin_host (_remote_origin self) ++ b ":" ++ bytes_of_int (origin_port (_remote_origin self)).

(** Lines 296-310: the CONNECT request. *)
Definition connect_request (self : t) (request : Request) : Request :=
  let connect_url :=
    mkURL (origin_scheme (_proxy_origin self)) (origin_host (_proxy_origin self))
          (Some (origin_port (_proxy_origin self))) (target self) in
  let connect_headers :=
    HeaderMerge.merge_headers
      (Some [(b "Host", target self); (b "Accept", b "*/*")])
      (Some (_proxy_headers self)) in
  mkRequest (b "CONNECT") connect_url connect_headers [] (req_extensions request).

(** Line 315. *)
Definition rejected (connect_response : Response) : bool :=
  (resp_status connect_response <? 200) || (299 <? resp_status connect_response).

(** Lines 316-318: the message of the proxy error. *)
Definition proxy_error_message (connect_response : Response) : string :=
  let reason_bytes := default (b "") (ext_reason_phrase (resp_extensions connect_response)) in
  let reason_str := decode_ascii_ignore reason_bytes in
  (str_of_int (resp_status connect_response) +:+ " " +:+ reason_str)%string.

(** Line 330. *)
Definition offered_protocols (self : t) : list string :=
  if _http2 self then ["http/1.1"; "h2"]%string else ["http/1.1"%string].

(** Lines 343-347. *)
Definition http2_negotiated (stream : NetworkStream) : bool :=
  match ssl_object stream with
  | None => false
  | Some o => bool_decide (selected_alpn_protocol o = Some "h2"%string)
  end.

(** Lines 350-363: the adapter placed over the upgraded stream. *)
Definition make_adapter (self : t) (stream : NetworkStream) : Connection :=
  if http2_negotiated stream || (_http2 self && negb (_http1 self))
  then AsyncHTTP2Connection (_remote_origin self) stream (_keepalive_expiry self) false
  else AsyncHTTP11Connection (_remote_origin self) stream (_keepalive_expiry self) false.

End Tunnel.

Module HTTPProxy.

(** [AsyncHTTPProxy]: the fields [create_connection] reads.
    [_proxy_origin] is [self._proxy_url.origin]. *)
Record t : Type := mk {
  _proxy_origin : Origin;
  _ssl_context : option ctxref;
  _proxy_ssl_context : option ctxref;
  _proxy_headers : Headers;
  _http1 : bool;
  _http2 : bool;
  _settings : Settings
}.

Inductive ProxyConnection : Type :=
  | ForwardHTTPConnection (c : Forward.t)
  | TunnelHTTPConnection (c : Tunnel.t).

(** [create_connection], lines 149-177. *)
Definition create_connection (self : t) (origin : Origin) : ProxyConnection :=
  if bool_decide (origin_scheme origin = b "http") then
    ForwardHTTPConnection
      (Forward.init (_proxy_origin self) origin (_proxy_ssl_context self)
                    (Some (_proxy_headers self)) (_settings self))
  else
    TunnelHTTPConnection
      (Tunnel.init (_proxy_origin self) origin (_ssl_context self)
                   (_proxy_ssl_context self) (Some (_proxy_headers self))
                   (_http1 self) (_http2 self) (_settings self)).

Definition can_handle_request (c : ProxyConnection) (origin : Origin) : bool :=
  match c with
  | ForwardHTTPConnection f => Forward.can_handle_request f origin
  | TunnelHTTPConnection u => Tunnel.can_handle_request u origin
  end.

Definition remote_origin (c : ProxyConnection) : Origin :=
  match c with
  | ForwardHTTPConnection f => Forward._remote_origin f
  | TunnelHTTPConnection u => Tunnel._remote_origin u
  end.

Definition is_forward (c : ProxyConnection) : bool :=
  match c with ForwardHTTPConnection _ => true | _ => false end.

End HTTPProxy.

(** ** [AsyncTunnelHTTPConnection.handle_async_request] as a task system

  A call of the coroutine is a task.  Between two [await]s a task runs
  alone; at an [await] it waits for a collaborator, whose answer arrives
  as an [Action].  Any number of tasks may be in flight on one tunnel. *)

Module Run.
Import Tunnel.

(** Calls made on collaborators, newest first. *)
Inductive Event : Type :=
  | ConnectSent (task : nat) (connect_request : Request)
  | Closed (task : nat)
  | StartTLS (task : nat) (stream : NetworkStream) (ssl_context : ctxref)
      (protocols : list string) (server_hostname : string) (timeout : option float)
  | Installed (task : nat) (adapter : Connection)
  | Delegated (task : nat) (connection : Connection) (request : Request).

(** Where a task stands in lines 288-366. *)
Inductive Pc : Type :=
  | AtLock (request : Request)                              (* line 292 *)
  | AwaitConnect (request : Request) (timeout : option float) (* line 311 *)
  | AwaitClose (msg : string)                               (* line 319 *)
  | AwaitStartTLS (request : Request)                       (* line 339 *)
  | AwaitDelegate                                           (* line 366 *)
  | Returned (response : Response)
  | Raised (e : Exception).

(** What a collaborator answers at an [await]. *)
Inductive Action : Type :=
  | Enter                                             (* the lock is granted *)
  | ConnectDone (outcome : Exception + Response)
  | CloseDone
  | StartTLSDone (outcome : Exception + NetworkStream)
  | DelegateDone (outcome : Exception + Response).

Record Sys : Type := mkSys {
  self : Tunnel.t;
  contexts : gmap ctxref SSLContext;
  log : list Event;
  tasks : list Pc
}.

Definition set_self (u : Tunnel.t) (s : Sys) : Sys :=
  mkSys u (contexts s) (log s) (tasks s).
Definition set_contexts (c : gmap ctxref SSLContext) (s : Sys) : Sys :=
  mkSys (self s) c (log s) (tasks s).
Definition emit (e : Event) (s : Sys) : Sys :=
  mkSys (self s) (contexts s) (e :: log s) (tasks s).
Definition set_task (i : nat) (pc : Pc) (s : Sys) : Sys :=
  mkSys (self s) (contexts s) (log s) (<[i:=pc]> (tasks s)).

(** Modelled from the spec: [AsyncLock] of [_synchronization] is not part of
    the sources at hand; it is a mutual-exclusion lock, granted only when
    no task holds it. *)
Definition acquire (i : nat) (s : Sys) : Sys := set_self (set_lock (Some i) (self s)) s.
Definition release (s : Sys) : Sys := set_self (set_lock None (self s)) s.

(** An exception leaving the [async with] block releases the lock. *)
Definition raise_locked (i : nat) (e : Exception) (s : Sys) : Sys :=
  set_task i (Raised e) (release s).

(** Line 366, up to its [await]. *)
Definition delegate (i : nat) (request : Request) (s : Sys) : Sys :=
  set_task i AwaitDelegate (emit (Delegated i (_connection (self s)) request) s).

(** Lines 289-313, from the granted lock to the next [await]. *)
Definition enter (i : nat) (request : Request) (s : Sys) : Sys :=
  let timeout := connect_timeout request in
  let s := acquire i s in
  if _connected (self s) then delegate i request (release s)
  else
    set_task i (AwaitConnect request timeout)
      (emit (ConnectSent i (connect_request (self s) request)) s).

(** Lines 325-331: the context to upgrade with, its ALPN offer set. *)
Definition prepare_ssl_context (s : Sys) : ctxref * Sys :=
  let '(ssl_context, ctxs) :=
    match _ssl_context (self s) with
    | None =>
        let r := fresh (dom (contexts s)) in
        (r, <[r := default_ssl_context_value]> (contexts s))
    | Some r => (r, contexts s)
    end in
  let alpn_protocols := offered_protocols (self s) in
  (ssl_context, set_contexts (alter (set_alpn_protocols alpn_protocols) ssl_context ctxs) s).

(** Lines 315-339, from the CONNECT response to the next [await]; the
    hooks of [Trace] only report to the tracing sink and are left out. *)
Definition on_connect_response (i : nat) (request : Request) (timeout : option float)
    (connect_response : Response) (s : Sys) : Sys :=
  if rejected connect_response then
    set_task i (AwaitClose (proxy_error_message connect_response)) s
  else
    match ext_network_stream (resp_extensions connect_response) with
    | None => raise_locked i (KeyError "network_stream") s
    | Some stream =>
        let '(ssl_context, s) := prepare_ssl_context s in
        match decode_ascii (origin_host (_remote_origin (self s))) with
        | None => raise_locked i UnicodeDecodeError s
        | Some server_hostname =>
            set_task i (AwaitStartTLS request)
              (emit (StartTLS i stream ssl_context (offered_protocols (self s))
                       server_hostname timeout) s)
        end
    end.

(** Lines 319-320: the connection is closed, then the error is raised. *)
Definition on_closed (i : nat) (msg : string) (s : Sys) : Sys :=
  raise_locked i (ProxyError msg) (emit (Closed i) (set_self (aclose (self s)) s)).

(** Lines 340-366, from the upgraded stream to the next [await]. *)
Definition on_tls_stream (i : nat) (request : Request) (stream : NetworkStream)
    (s : Sys) : Sys :=
  let adapter := make_adapter (self s) stream in
  let s := emit (Installed i adapter) (set_self (set_connection adapter (self s)) s) in
  let s := set_self (set_connected true (self s)) s in
  delegate i request (release s).

Definition step (s : Sys) (i : nat) (a : Action) : option Sys :=
  match tasks s !! i, a with
  | Some (AtLock request), Enter =>
      match _connect_lock (self s) with
      | None => Some (enter i request s)
      | Some _ => None
      end
  | Some (AwaitConnect request timeout), ConnectDone (inr connect_response) =>
      Some (on_connect_response i request timeout connect_response s)
  | Some (AwaitConnect _ _), ConnectDone (inl e) => Some (raise_locked i e s)
  | Some (AwaitClose msg), CloseDone => Some (on_closed i msg s)
  | Some (AwaitStartTLS request), StartTLSDone (inr stream) =>
      Some (on_tls_stream i request stream s)
  | Some (AwaitStartTLS _), StartTLSDone (inl e) => Some (raise_locked i e s)
  | Some AwaitDelegate, DelegateDone (inr response) => Some (set_task i (Returned response) s)
  | Some AwaitDelegate, DelegateDone (inl e) => Some (set_task i (Raised e) s)
  | _, _ => None
  end.

(** A schedule names, step by step, the task that moves and the answer it
    gets; [run] is [None] when the schedule asks for a step that cannot
    be taken. *)
Fixpoint run (s : Sys) (schedule : list (nat * Action)) : option Sys :=
  match schedule with
  | [] => Some s
  | (i, a) :: rest =>
      match step s i a with
      | Some s' => run s' rest
      | None => None
      end
  end.

(** [requests] are handed to [handle_async_request] at once. *)
Definition start (u : Tunnel.t) (ctxs : gmap ctxref SSLContext)
    (requests : list Request) : Sys :=
  mkSys u ctxs [] (AtLock <$> requests).

(** [handle_async_request] called once and run alone: task [0], given the
    answers of the collaborators in order. *)
Definition handle_async_request (u : Tunnel.t) (ctxs : gmap ctxref SSLContext)
    (request : Request) (answers : list Action) : option Sys :=
  run (start u ctxs [request]) ((λ a, (0%nat, a)) <$> answers).

Definition is_connect_sent (e : Event) : bool :=
  match e with ConnectSent _ _ => true | _ => false end.
Definition is_start_tls (e : Event) : bool :=
  match e with StartTLS _ _ _ _ _ _ => true | _ => false end.
Definition is_installed (e : Event) : bool :=
  match e with Installed _ _ => true | _ => false end.

(** CONNECT requests sent, TLS upgrades started, adapters installed. *)
Definition connects (s : Sys) : nat := length (filter (λ e, is_connect_sent e = true) (log s)).
Definition upgrades (s : Sys) : nat := length (filter (λ e, is_start_tls e = true) (log s)).
Definition installs (s : Sys) : nat := length (filter (λ e, is_installed e = true) (log s)).

End Run.

(** ** Invariants of the task system *)

Module Invariant.
Import Tunnel Run.

(** The task stands inside the [async with self._connect_lock] block. *)
Definition in_handshake (pc : Pc) : bool :=
  match pc with
  | AwaitConnect _ _ | AwaitClose _ | AwaitStartTLS _ => true
  | _ => false
  end.

Definition is_raised (pc : Pc) : bool :=
  match pc with Raised _ => true | _ => false end.

Definition is_returned (pc : Pc) : bool :=
  match pc with Returned _ => true | _ => false end.

Definition past_lock (pc : Pc) : bool :=
  match pc with AwaitDelegate | Returned _ => true | _ => false end.

(** Calls that ended in an exception. *)
Definition raised (s : Sys) : nat := length (filter (λ pc, is_raised pc = true) (tasks s)).

(** A tunnel on which no call has run yet. *)
Definition unused (u : Tunnel.t) : Prop :=
  _connect_lock u = None ∧ _connected u = false
  ∧ is_proxy_facing (_connection u) = true.

(** Two values of the same connection object: equal but for [closed]. *)
Definition same_object (c c' : Connection) : Prop := conn_aclose c = conn_aclose c'.

(** [1] when a CONNECT is owed to the call holding the lock or to the
    adapter in place, [0] on a tunnel at rest and not connected. *)
Definition holding_of (u : Tunnel.t) : nat :=
  if bool_decide (_connect_lock u = None) && negb (_connected u) then 0%nat else 1%nat.

Definition holding (s : Sys) : nat := holding_of (self s).

Definition count (p : Event → bool) (evs : list Event) : nat :=
  length (filter (λ e, p e = true) evs).

Definition lock_of (i : nat) (pc : Pc) : option nat :=
  if in_handshake pc then Some i else None.

Record inv (s : Sys) : Prop := mk_inv {
  (* a task inside the block holds the lock *)
  inv_holder : ∀ i pc, tasks s !! i = Some pc → in_handshake pc = true →
                       _connect_lock (self s) = Some i;
  (* the lock is held by a task inside the block *)
  inv_locked : ∀ i, _connect_lock (self s) = Some i →
                    ∃ pc, tasks s !! i = Some pc ∧ in_handshake pc = true;
  (* the block is only entered while the flag is false *)
  inv_flag : ∀ i, _connect_lock (self s) = Some i → _connected (self s) = false;
  (* the field holds the proxy-facing connection until the flag is set *)
  inv_delegate : is_proxy_facing (_connection (self s)) = negb (_connected (self s));
  (* one adapter is installed when the flag is set, none before *)
  inv_installs : installs s = (if _connected (self s) then 1%nat else 0%nat);
  (* requests are only delegated to the installed adapter *)
  inv_delegated : ∀ j c r, Delegated j c r ∈ log s →
                           _connected (self s) = true ∧ c = _connection (self s);
  (* a task past the lock saw the flag set, and handed its request on *)
  inv_past : ∀ i pc, tasks s !! i = Some pc → past_lock pc = true →
                     _connected (self s) = true;
  inv_handed : ∀ i pc, tasks s !! i = Some pc → past_lock pc = true →
                       ∃ c r, Delegated i c r ∈ log s;
  (* every CONNECT sent is accounted for by a failed call, by the call
     that holds the lock, or by the adapter in place *)
  inv_connects : (connects s ≤ raised s + holding s)%nat;
  (* an upgrade follows a CONNECT, an adapter follows an upgrade *)
  inv_upgrades : (upgrades s ≤ connects s)%nat;
  inv_pre_tls : ∀ i r t, tasks s !! i = Some (AwaitConnect r t) →
                         (upgrades s < connects s)%nat;
  inv_pre_install : ∀ i r, tasks s !! i = Some (AwaitStartTLS r) →
                           (0 < upgrades s)%nat;
  inv_upgraded : _connected (self s) = true → (0 < upgrades s)%nat
}.

(** What a handshake may change in the store of TLS configuration objects:
    of the objects in [before], only the one the tunnel was given, and of
    that one only the ALPN offer. *)
Definition frame (u : Tunnel.t) (before after : gmap ctxref SSLContext) : Prop :=
  ∀ r c, before !! r = Some c →
    ∃ c', after !! r = Some c'
      ∧ check_hostname c' = check_hostname c
      ∧ verify_mode c' = verify_mode c
      ∧ (c' = c ∨ (_ssl_context u = Some r ∧ alpn_protocols c' = offered_protocols u)).

(** Proof steps shared by the transitions of the task system. *)
Ltac in_events H :=
  repeat (apply elem_of_cons in H as [H|H]; [simplify_eq|]);
  try (by apply elem_of_nil in H).

Ltac side Hinv s :=
  pose proof (inv_delegate s Hinv);
  pose proof (inv_upgrades s Hinv);
  pose proof (inv_upgraded s Hinv);
  pose proof (inv_installs s Hinv);
  unfold count, holding_of, lock_of; simpl;
  repeat match goal with
         | H : ?x = _ |- context [?x] => rewrite H
         | H : ?x = _, H' : context [?x] |- _ => rewrite H in H'
         end; simpl in *;
  try done; try lia;
  try match goal with
      | |- ∀ j c r, Delegated j c r ∈ _ → _ =>
          let H := fresh in intros ? ? ? H; in_events H; try done
      | |- (∃ r, _ = AwaitStartTLS r) ∨ _ → _ =>
          let H := fresh in intros [[? H]|H]; simplify_eq; try done; try lia
      | |- ∀ r t, _ = AwaitConnect r t → _ =>
          let H := fresh in intros ? ? H; simplify_eq; try done; try lia
      | |- _ → _ ∨ (∃ _, _) =>
          intros _;
          first [ by left | right; do 2 eexists; by (apply elem_of_cons; left)
                | right; do 2 eexists; apply elem_of_cons; right;
                  by (apply elem_of_cons; left) ]
      | |- _ → _ => intros; simplify_eq; try done; try lia
      end.

End Invariant.

(** ** Readings of the specification that the theorems below settle *)

Module Stated.
Import Tunnel Run Invariant.

(** Proxy headers taken as the overrides, the request's as the defaults. *)
Definition proxy_headers_override (self : Forward.t) (request : Request) : Prop :=
  req_headers (Forward.proxy_request self request)
  = HeaderMerge.merge_headers (Some (req_headers request))
                              (Some (Forward._proxy_headers self)).

(** Every key of the overrides occurs exactly once in the merge. *)
Definition override_keys_once (defaults overrides : Headers) : Prop :=
  ∀ k, k ∈ overrides.*1 →
       HeaderMerge.count_key k
         (HeaderMerge.merge_headers (Some defaults) (Some overrides)) = 1%nat.

Definition proxy_origin (c : HTTPProxy.ProxyConnection) : Origin :=
  match c with
  | HTTPProxy.ForwardHTTPConnection f => Forward._proxy_origin f
  | HTTPProxy.TunnelHTTPConnection u => Tunnel._proxy_origin u
  end.

(** The proxy's own origin is never accepted. *)
Definition proxy_origin_never_matches (c : HTTPProxy.ProxyConnection) : Prop :=
  HTTPProxy.can_handle_request c (proxy_origin c) = false.

(** The handshake leaves the TLS configuration object at [r] as it was. *)
Definition context_untouched (r : ctxref) (before after : Sys) : Prop :=
  contexts after !! r = contexts before !! r.

(** One handshake in total, and either every call returned a response or
    the connection is seen closed. *)
Definition all_returned (s : Sys) : bool := forallb is_returned (tasks s).
Definition all_settled (s : Sys) : bool :=
  forallb (λ pc, is_returned pc || is_raised pc) (tasks s).

Definition one_handshake_for_all (s : Sys) : Prop :=
  connects s = 1%nat ∧ (all_returned s = true ∨ is_closed (self s) = true).

(** The protocol ALPN settled on, if the stream is a TLS stream. *)
Definition negotiated (stream : NetworkStream) : option string :=
  o ← ssl_object stream; selected_alpn_protocol o.

End Stated.

(** ** Sample values *)

Module Sample.
Import Run.

Definition settings : Settings := mkSettings None 0 None None None None.
Definition proxy : Origin := mkOrigin (b "http") (b "127.0.0.1") 8080.
Definition remote : Origin := mkOrigin (b "https") (b "example.com") 443.
Definition plain : Origin := mkOrigin (b "http") (b "example.com") 80.

Definition get (o : Origin) (headers : Headers) : Request :=
  mkRequest (b "GET")
    (mkURL (origin_scheme o) (origin_host o) (Some (origin_port o)) (b "/"))
    headers [] no_extensions.

Definition pool : HTTPProxy.t :=
  HTTPProxy.mk proxy (Some 0%nat) None
    [(b "Proxy-Authorization", b "Basic dXNlcjpwYXNz")] true false settings.

Definition forward : Forward.t :=
  Forward.init proxy plain None (Some [(b "User-Agent", b "proxy/1")]) settings.

(** A tunnel whose client TLS configuration is the caller's object [0]. *)
Definition tunnel : Tunnel.t :=
  Tunnel.init proxy remote (Some 0%nat) None
    (Some [(b "Proxy-Authorization", b "Basic dXNlcjpwYXNz")]) true false settings.

Definition store : gmap ctxref SSLContext := {[ 0%nat := mkSSLContext [] true 2 ]}.

(** A call on [tunnel] that has sent its CONNECT and waits for the answer. *)
Definition awaiting_connect : Sys :=
  mkSys (Tunnel.set_lock (Some 0%nat) tunnel) store
    [ConnectSent 0 (Tunnel.connect_request tunnel (get remote []))]
    [AwaitConnect (get remote []) None].

(** The same call once the proxy has accepted and the upgrade is under way. *)
Definition awaiting_start_tls : Sys :=
  mkSys (Tunnel.set_lock (Some 0%nat) tunnel)
    {[ 0%nat := mkSSLContext ["http/1.1"%string] true 2 ]}
    [StartTLS 0 (mkNetworkStream 1 None) 0 ["http/1.1"%string] "example.com" None;
     ConnectSent 0 (Tunnel.connect_request tunnel (get remote []))]
    [AwaitStartTLS (get remote [])].

Definition raw_stream : NetworkStream := mkNetworkStream 1 None.
Definition tls_stream (alpn : option string) : NetworkStream :=
  mkNetworkStream 2 (Some (mkSSLObject alpn)).

Definition accepted : Response :=
  mkResponse 200 [] [] (mkExtensions None (Some (b "Connection established")) (Some raw_stream)).
Definition denied : Response :=
  mkResponse 407 [] []
    (mkExtensions None (Some (b "Proxy Authentication Required")) None).
Definition ok : Response := mkResponse 200 [] [b "hello"] no_extensions.

(** The first call is accepted by the proxy, then its TLS upgrade fails;
    the second call runs after it. *)
Definition upgrade_fails : list (nat * Action) :=
  [(0%nat, Enter); (0%nat, ConnectDone (inr accepted));
   (0%nat, StartTLSDone (inl (Foreign "ConnectError")));
   (1%nat, Enter); (1%nat, ConnectDone (inl (Foreign "ConnectionNotAvailable")))].

(** The first call is turned down by the proxy; the second runs after it. *)
Definition proxy_denies : list (nat * Action) :=
  [(0%nat, Enter); (0%nat, ConnectDone (inr denied)); (0%nat, CloseDone);
   (1%nat, Enter); (1%nat, ConnectDone (inl (Foreign "ConnectionNotAvailable")))].

(** The first call sets the tunnel up while the second waits for the lock. *)
Definition both_succeed : list (nat * Action) :=
  [(0%nat, Enter); (0%nat, ConnectDone (inr accepted));
   (0%nat, StartTLSDone (inr (tls_stream (Some "http/1.1"%string))));
   (1%nat, Enter); (1%nat, DelegateDone (inr ok)); (0%nat, DelegateDone (inr ok))].

(** Two calls made at once on [tunnel], and where [both_succeed] takes them. *)
Definition two : list Request := [get remote []; get remote []].
Definition both_done : Sys :=
  default (start tunnel store two) (run (start tunnel store two) both_succeed).

End Sample.

(** * Properties *)

(** ** Header merging *)

Module HeaderMergeFacts.
Import HeaderMerge.

Lemma merge_headers_unfold (d o : Headers) :
  merge_headers (Some d) (Some o) = spec_merge d o.
Proof.
  unfold merge_headers, spec_merge, lowered_keys. f_equal.
  apply list_filter_iff. intros kv.
  by rewrite not_elem_of_list_to_set.
Qed.

Lemma spec_merge_nil_r (d : Headers) : spec_merge d [] = d.
Proof.
  unfold spec_merge, lowered_keys. rewrite app_nil_r. simpl.
  induction d as [|kv d IH]; [done|].
  rewrite filter_cons_True; [by rewrite IH | by apply not_elem_of_nil].
Qed.

Lemma count_key_app k (l1 l2 : Headers) :
  count_key k (l1 ++ l2) = (count_key k l1 + count_key k l2)%nat.
Proof. unfold count_key. by rewrite filter_app, length_app. Qed.

Lemma count_key_ci_app k (l1 l2 : Headers) :
  count_key_ci k (l1 ++ l2) = (count_key_ci k l1 + count_key_ci k l2)%nat.
Proof. unfold count_key_ci. by rewrite filter_app, length_app. Qed.

Lemma lowered_key_elem (k : bytes) (o : Headers) :
  k ∈ o.*1 → lower k ∈ lowered_keys o.
Proof.
  intros Hk. apply list_elem_of_fmap in Hk as [kv [-> Hkv]].
  unfold lowered_keys. apply list_elem_of_fmap. by exists kv.
Qed.

(** No default entry that survives the merge has a key that some
    override carries, whatever the case of its letters. *)
Lemma kept_defaults_no_conflict (k : bytes) (d o : Headers) :
  lower k ∈ lowered_keys o →
  filter (λ kv : bytes * bytes, lower kv.1 = lower k)
    (filter (λ kv : bytes * bytes, lower kv.1 ∉ lowered_keys o) d) = [].
Proof.
  intros Hk. induction d as [|kv d IH]; [done|].
  destruct (decide (lower kv.1 ∈ lowered_keys o)) as [Hin|Hout].
  - rewrite (filter_cons_False _ kv d); [done | by intros ?].
  - rewrite (filter_cons_True _ kv d) by done.
    rewrite filter_cons_False; [done|].
    intros Heq. apply Hout. by rewrite Heq.
Qed.

Lemma kept_defaults_no_exact (k : bytes) (d o : Headers) :
  lower k ∈ lowered_keys o →
  filter (λ kv : bytes * bytes, kv.1 = k)
    (filter (λ kv : bytes * bytes, lower kv.1 ∉ lowered_keys o) d) = [].
Proof.
  intros Hk. induction d as [|kv d IH]; [done|].
  destruct (decide (lower kv.1 ∈ lowered_keys o)) as [Hin|Hout].
  - rewrite (filter_cons_False _ kv d); [done | by intros ?].
  - rewrite (filter_cons_True _ kv d) by done.
    rewrite filter_cons_False; [done|].
    intros Heq. apply Hout. by rewrite Heq.
Qed.

End HeaderMergeFacts.

(** ** The task system keeps its invariant *)

Module RunFacts.
Import Tunnel Run Invariant.

Lemma count_insert {A} (P : A → Prop) `{∀ x, Decision (P x)} (l : list A) i x y :
  l !! i = Some x →
  (length (filter P (<[i:=y]> l)) + (if decide (P x) then 1 else 0)
   = length (filter P l) + (if decide (P y) then 1 else 0))%nat.
Proof.
  revert i. induction l as [|z l IH]; intros [|i] Hi; simplify_eq/=.
  - rewrite !filter_cons. repeat case_decide; simpl; lia.
  - specialize (IH i Hi). rewrite !filter_cons.
    destruct (decide (P z)); simpl; lia.
Qed.

Lemma raised_set_task s i pc pc0 :
  tasks s !! i = Some pc0 →
  (raised (set_task i pc s) + (if is_raised pc0 then 1 else 0)
   = raised s + (if is_raised pc then 1 else 0))%nat.
Proof.
  intros Hi. unfold raised. simpl.
  pose proof (count_insert (λ pc, is_raised pc = true) (tasks s) i pc0 pc Hi) as H.
  revert H. destruct (is_raised pc0) eqn:E0, (is_raised pc) eqn:E1;
    repeat case_decide; intros; first [congruence | lia].
Qed.

(** One step of one task, in general: task [i] moves from [pc0] to [pc1],
    the tunnel becomes [u'], the store [ctxs'], and [evs] are logged. *)
Lemma inv_transition s i pc0 pc1 u' ctxs' evs :
  inv s →
  tasks s !! i = Some pc0 →
  is_raised pc0 = false →
  _connect_lock (self s) = lock_of i pc0 →
  _connect_lock u' = lock_of i pc1 →
  (in_handshake pc1 = true → _connected u' = false) →
  is_proxy_facing (_connection u') = negb (_connected u') →
  (count is_installed evs + (if _connected (self s) then 1 else 0)
     = if _connected u' then 1 else 0)%nat →
  (∀ j c r, Delegated j c r ∈ evs → _connected u' = true ∧ c = _connection u') →
  (_connected (self s) = true →
     _connected u' = true ∧ _connection u' = _connection (self s)) →
  (past_lock pc1 = true → _connected u' = true) →
  (past_lock pc1 = true → past_lock pc0 = true ∨ ∃ c r, Delegated i c r ∈ evs) →
  (count is_connect_sent evs + holding_of (self s)
     ≤ (if is_raised pc1 then 1 else 0) + holding_of u')%nat →
  (upgrades s + count is_start_tls evs ≤ connects s + count is_connect_sent evs)%nat →
  (∀ r t, pc1 = AwaitConnect r t →
     upgrades s + count is_start_tls evs < connects s + count is_connect_sent evs)%nat →
  ((∃ r, pc1 = AwaitStartTLS r) ∨ _connected u' = true →
     0 < upgrades s + count is_start_tls evs)%nat →
  inv (mkSys u' ctxs' (evs ++ log s) (<[i:=pc1]> (tasks s))).
Proof.
  intros Hinv Hi Hnr Hl0 Hl1 Hflag Hfield Hinst Hdel Hkeep Hpast Hhand Hconn Hupg Hpre Hpos.
  assert (Hothers : ∀ j pc, i ≠ j → tasks s !! j = Some pc → in_handshake pc = false).
  { intros j pc Hne Hj. destruct (in_handshake pc) eqn:Hpc; [|done].
    pose proof (inv_holder s Hinv j pc Hj Hpc) as Hh.
    rewrite Hl0 in Hh. unfold lock_of in Hh. destruct (in_handshake pc0); congruence. }
  assert (Hlook : ∀ j pc, <[i:=pc1]> (tasks s) !! j = Some pc →
                          (i = j ∧ pc = pc1) ∨ (i ≠ j ∧ tasks s !! j = Some pc)).
  { intros j pc H. apply list_lookup_insert_Some in H.
    destruct H as [(-> & -> & _)|[? ?]]; auto. }
  assert (Hc : connects (mkSys u' ctxs' (evs ++ log s) (<[i:=pc1]> (tasks s)))
               = (count is_connect_sent evs + connects s)%nat).
  { unfold connects, count. simpl. by rewrite filter_app, length_app. }
  assert (Hu : upgrades (mkSys u' ctxs' (evs ++ log s) (<[i:=pc1]> (tasks s)))
               = (count is_start_tls evs + upgrades s)%nat).
  { unfold upgrades, count. simpl. by rewrite filter_app, length_app. }
  assert (Hn : installs (mkSys u' ctxs' (evs ++ log s) (<[i:=pc1]> (tasks s)))
               = (count is_installed evs + installs s)%nat).
  { unfold installs, count. simpl. by rewrite filter_app, length_app. }
  constructor; simpl.
  - intros j pc Hj Hpc. apply Hlook in Hj as [[<- ->]|[Hne Hj]].
    + rewrite Hl1. unfold lock_of. by rewrite Hpc.
    + rewrite (Hothers j pc Hne Hj) in Hpc. done.
  - intros j Hj. rewrite Hl1 in Hj. unfold lock_of in Hj.
    destruct (in_handshake pc1) eqn:Hpc; [|done]. simplify_eq.
    exists pc1. split; [|done]. apply list_lookup_insert_eq. by eapply lookup_lt_Some.
  - intros j Hj. rewrite Hl1 in Hj. unfold lock_of in Hj.
    destruct (in_handshake pc1) eqn:Hpc; [|done]. by apply Hflag.
  - done.
  - rewrite Hn, (inv_installs s Hinv). done.
  - intros j c r Hin. apply elem_of_app in Hin as [Hin|Hin]; [by apply (Hdel j c r)|].
    destruct (inv_delegated s Hinv j c r Hin) as [Hc0 ->].
    destruct (Hkeep Hc0) as [-> ->]. done.
  - intros j pc Hj Hpc. apply Hlook in Hj as [[<- ->]|[Hne Hj]]; [by apply Hpast|].
    apply Hkeep. by apply (inv_past s Hinv j pc).
  - intros j pc Hj Hpc. apply Hlook in Hj as [[<- ->]|[Hne Hj]].
    + destruct (Hhand Hpc) as [Hp0|(c & r & Hin)].
      * destruct (inv_handed s Hinv i pc0 Hi Hp0) as (c & r & Hin).
        exists c, r. apply elem_of_app. by right.
      * exists c, r. apply elem_of_app. by left.
    + destruct (inv_handed s Hinv j pc Hj Hpc) as (c & r & Hin).
      exists c, r. apply elem_of_app. by right.
  - rewrite Hc.
    pose proof (raised_set_task s i pc1 pc0 Hi) as Hr. rewrite Hnr in Hr.
    unfold raised in *. simpl in Hr.
    pose proof (inv_connects s Hinv) as Hle. unfold raised, holding in Hle.
    unfold holding, holding_of in *. simpl. lia.
  - rewrite Hc, Hu. lia.
  - intros j r t Hj. rewrite Hc, Hu. apply Hlook in Hj as [[<- Heq]|[Hne Hj]].
    + specialize (Hpre r t (eq_sym Heq)). lia.
    + by specialize (Hothers j _ Hne Hj).
  - intros j r Hj. rewrite Hu. apply Hlook in Hj as [[<- Heq]|[Hne Hj]].
    + assert (0 < upgrades s + count is_start_tls evs)%nat by (apply Hpos; eauto). lia.
    + by specialize (Hothers j _ Hne Hj).
  - intros Hc1. rewrite Hu.
    assert (0 < upgrades s + count is_start_tls evs)%nat by (apply Hpos; eauto). lia.
Qed.

Lemma lock_free_past s i pc :
  inv s → tasks s !! i = Some pc → past_lock pc = true →
  _connect_lock (self s) = None.
Proof.
  intros Hinv Hi Hpc. pose proof (inv_past s Hinv i pc Hi Hpc) as Hc.
  destruct (_connect_lock (self s)) as [j|] eqn:Hl; [|done].
  pose proof (inv_flag s Hinv j Hl). congruence.
Qed.

Lemma step_inv s i a s' : inv s → step s i a = Some s' → inv s'.
Proof.
  intros Hinv Hstep. unfold step in Hstep.
  destruct (tasks s !! i) as [pc0|] eqn:Hi; [|done].
  destruct pc0, a; try done.
  - (* the lock is granted *)
    destruct (_connect_lock (self s)) eqn:Hl; [done|]. simplify_eq.
    unfold enter. simpl. destruct (_connected (self s)) eqn:Hc.
    + eapply (inv_transition s i _ AwaitDelegate _ _ [_]); eauto; simpl; try done;
        side Hinv s.
    + eapply (inv_transition s i _ (AwaitConnect _ _) _ _ [_]); eauto; simpl; try done;
        side Hinv s.
  - (* the answer to CONNECT *)
    pose proof (inv_holder s Hinv i _ Hi eq_refl) as Hl.
    pose proof (inv_flag s Hinv i Hl) as Hc.
    pose proof (inv_pre_tls s Hinv i _ _ Hi) as Hlt.
    destruct outcome as [e|connect_response]; simplify_eq.
    + eapply (inv_transition s i _ (Raised e) _ _ []); eauto; simpl; try done;
        side Hinv s.
    + unfold on_connect_response.
      destruct (rejected connect_response).
      { eapply (inv_transition s i _ (AwaitClose _) _ _ []); eauto; simpl; try done;
          side Hinv s. }
      destruct (ext_network_stream _) as [stream|].
      2:{ eapply (inv_transition s i _ (Raised _) _ _ []); eauto; simpl; try done;
          side Hinv s. }
      unfold prepare_ssl_context.
      destruct (_ssl_context (self s)) as [r0|]; simpl;
        destruct (decode_ascii _); simpl.
      all: first
        [ by (eapply (inv_transition s i _ (AwaitStartTLS _) _ _ [_]); eauto; simpl;
              try done; side Hinv s)
        | by (eapply (inv_transition s i _ (Raised _) _ _ []); eauto; simpl;
              try done; side Hinv s) ].
  - (* the proxy-facing connection is closed *)
    pose proof (inv_holder s Hinv i _ Hi eq_refl) as Hl.
    pose proof (inv_flag s Hinv i Hl) as Hc.
    simplify_eq. unfold on_closed, aclose.
    eapply (inv_transition s i _ (Raised _) _ _ [_]); eauto; simpl; try done;
      side Hinv s.
    by destruct (_connection (self s)).
  - (* the stream is upgraded, or the upgrade failed *)
    pose proof (inv_holder s Hinv i _ Hi eq_refl) as Hl.
    pose proof (inv_flag s Hinv i Hl) as Hc.
    pose proof (inv_pre_install s Hinv i _ Hi) as Hlt.
    destruct outcome as [e|stream]; simplify_eq.
    + eapply (inv_transition s i _ (Raised e) _ _ []); eauto; simpl; try done;
        side Hinv s.
    + unfold on_tls_stream. simpl.
      eapply (inv_transition s i _ AwaitDelegate _ _ [_; _]); eauto; simpl; try done;
        side Hinv s.
      unfold make_adapter. by destruct (_ || _).
  - (* the delegate answers *)
    pose proof (lock_free_past s i _ Hinv Hi eq_refl) as Hl.
    pose proof (inv_past s Hinv i _ Hi eq_refl) as Hc.
    destruct outcome as [e|response]; simplify_eq.
    + eapply (inv_transition s i _ (Raised e) _ _ []); eauto; simpl; try done;
        side Hinv s.
    + eapply (inv_transition s i _ (Returned response) _ _ []); eauto; simpl; try done;
        side Hinv s.
Qed.

Lemma start_inv u ctxs requests : unused u → inv (start u ctxs requests).
Proof.
  intros (Hl & Hc & Hf).
  assert (Hat : ∀ i pc, (AtLock <$> requests) !! i = Some pc → ∃ r, pc = AtLock r).
  { intros i pc H. apply list_lookup_fmap_Some in H as (r & ? & ?). eauto. }
  constructor; simpl; rewrite ?Hl, ?Hc; try done.
  all: try (intros i pc Hi Hpc; destruct (Hat i pc Hi) as [r ->]; done).
  - intros j c r H. by apply elem_of_nil in H.
  - unfold connects, start. simpl. lia.
  - intros i r t Hi. by destruct (Hat i _ Hi).
  - intros i r Hi. by destruct (Hat i _ Hi).
Qed.

Lemma run_inv schedule : ∀ s s', inv s → run s schedule = Some s' → inv s'.
Proof.
  induction schedule as [|[i a] rest IH]; intros s s' Hinv Hrun; simpl in Hrun.
  - by simplify_eq.
  - destruct (step s i a) as [s1|] eqn:Hstep; [|done].
    eapply IH; [|done]. by eapply step_inv.
Qed.

End RunFacts.

(** ** [merge_headers] against the specification *)

Module HeaderMergeProps.
Import HeaderMerge HeaderMergeFacts.

(** C8: the merge is the defaults whose lower-cased key is not among the
    lower-cased override keys, in their order, followed by the overrides in
    their order, every pair emitted as it came; [None] counts as no headers,
    and merging with empty overrides returns the defaults unchanged. *)
Theorem merge_headers_algorithm (defaults overrides : option Headers) :
  merge_headers defaults overrides
  = filter (λ kv : bytes * bytes, lower kv.1 ∉ lowered_keys (default [] overrides))
           (default [] defaults)
    ++ default [] overrides
  ∧ filter (λ kv : bytes * bytes, lower kv.1 ∉ lowered_keys (default [] overrides))
           (default [] defaults) `sublist_of` default [] defaults
  ∧ merge_headers defaults (Some []) = default [] defaults
  ∧ merge_headers defaults None = default [] defaults.
Proof.
  assert (Hm : ∀ d o, merge_headers d o = spec_merge (default [] d) (default [] o)).
  { intros [d|] [o|]; simpl; apply (merge_headers_unfold _ _). }
  split; [apply Hm|]. split; [apply sublist_filter|].
  split; rewrite Hm; apply spec_merge_nil_r.
Qed.

(** C7, as the code has it: a key of the overrides occurs in the merge as
    often as it occurs in the overrides (byte for byte, and also up to
    case), hence once when the overrides carry it once; and the part of the
    merge that comes before the overrides holds exactly the default entries
    whose key matches no override key up to case. *)
Theorem merge_headers_override_keys (defaults overrides : Headers) :
  (∀ k, k ∈ overrides.*1 →
        count_key k (merge_headers (Some defaults) (Some overrides))
          = count_key k overrides
        ∧ count_key_ci k (merge_headers (Some defaults) (Some overrides))
          = count_key_ci k overrides)
  ∧ ∃ kept, merge_headers (Some defaults) (Some overrides) = kept ++ overrides
            ∧ kept `sublist_of` defaults
            ∧ ∀ kv, kv ∈ kept ↔ kv ∈ defaults ∧ lower kv.1 ∉ lowered_keys overrides.
Proof.
  rewrite merge_headers_unfold. unfold spec_merge. split.
  - intros k Hk. apply lowered_key_elem in Hk.
    rewrite count_key_app, count_key_ci_app.
    unfold count_key at 1, count_key_ci at 1.
    rewrite (kept_defaults_no_exact k defaults overrides Hk).
    rewrite (kept_defaults_no_conflict k defaults overrides Hk). done.
  - eexists. split; [done|]. split; [apply sublist_filter|].
    intros kv. rewrite list_elem_of_filter. tauto.
Qed.

(** C7 as written fails when the overrides repeat a key. *)
Lemma repeated_override_key_is_kept_twice :
  b "Via" ∈ [(b "Via", b "1.1 a"); (b "Via", b "1.1 b")].*1
  ∧ count_key (b "Via")
      (merge_headers (Some [(b "via", b "1.0 z")])
                     (Some [(b "Via", b "1.1 a"); (b "Via", b "1.1 b")])) = 2%nat
  ∧ ¬ Stated.override_keys_once [(b "via", b "1.0 z")]
        [(b "Via", b "1.1 a"); (b "Via", b "1.1 b")].
Proof.
  assert (Hin : b "Via" ∈ [(b "Via", b "1.1 a"); (b "Via", b "1.1 b")].*1).
  { apply elem_of_cons. by left. }
  assert (Hcount : count_key (b "Via")
      (merge_headers (Some [(b "via", b "1.0 z")])
                     (Some [(b "Via", b "1.1 a"); (b "Via", b "1.1 b")])) = 2%nat).
  { vm_compute. reflexivity. }
  split; [done|]. split; [done|].
  intros Hclaim. specialize (Hclaim _ Hin). rewrite Hcount in Hclaim. discriminate.
Qed.

Lemma merge_headers_override_keys_witness :
  b "Via" ∈ [(b "Via", b "1.1 a")].*1
  ∧ count_key (b "Via")
      (merge_headers (Some [(b "via", b "1.0 z")]) (Some [(b "Via", b "1.1 a")]))
    = count_key (b "Via") [(b "Via", b "1.1 a")].
Proof.
  assert (Hin : b "Via" ∈ [(b "Via", b "1.1 a")].*1).
  { apply elem_of_cons. by left. }
  split; [exact Hin|].
  exact (proj1 (proj1 (merge_headers_override_keys
                         [(b "via", b "1.0 z")] [(b "Via", b "1.1 a")]) _ Hin)).
Defined.

End HeaderMergeProps.

(** ** The forwarding connection and the factory *)

Module ForwardProps.
Import HeaderMerge HeaderMergeFacts.

(** C1, as the code has it: the proxy-facing request carries the merge of
    the configured proxy headers as the defaults with the incoming
    request's headers as the overrides.  Every header of the incoming
    request is sent on, and a name that the request carries (up to case)
    occurs as often as in the request: a configured proxy header of that
    name is dropped, the request's header wins. *)
Theorem forward_request_headers (self : Forward.t) (request : Request) :
  req_headers (Forward.proxy_request self request)
    = merge_headers (Some (Forward._proxy_headers self)) (Some (req_headers request))
  ∧ req_headers (Forward.proxy_request self request)
    = filter (λ kv : bytes * bytes, lower kv.1 ∉ lowered_keys (req_headers request))
             (Forward._proxy_headers self)
      ++ req_headers request
  ∧ (∀ kv, kv ∈ req_headers request →
           kv ∈ req_headers (Forward.proxy_request self request))
  ∧ (∀ k, lower k ∈ lowered_keys (req_headers request) →
          count_key_ci k (req_headers (Forward.proxy_request self request))
          = count_key_ci k (req_headers request)).
Proof.
  split; [done|]. simpl. rewrite merge_headers_unfold. unfold spec_merge.
  split; [done|]. split.
  - intros kv Hkv. apply elem_of_app. by right.
  - intros k Hk. rewrite count_key_ci_app. unfold count_key_ci at 1.
    by rewrite (kept_defaults_no_conflict k _ _ Hk).
Qed.

(** C1 as written fails: on a conflicting name the request's value is sent,
    not the configured proxy header's. *)
Lemma forward_proxy_header_loses :
  req_headers (Forward.proxy_request Sample.forward
                 (Sample.get Sample.plain [(b "user-agent", b "client/2")]))
    = [(b "user-agent", b "client/2")]
  ∧ merge_headers (Some [(b "user-agent", b "client/2")])
                  (Some (Forward._proxy_headers Sample.forward))
    = [(b "User-Agent", b "proxy/1")]
  ∧ ¬ Stated.proxy_headers_override Sample.forward
        (Sample.get Sample.plain [(b "user-agent", b "client/2")]).
Proof.
  assert (H1 : req_headers (Forward.proxy_request Sample.forward
                 (Sample.get Sample.plain [(b "user-agent", b "client/2")]))
               = [(b "user-agent", b "client/2")]) by (vm_compute; reflexivity).
  assert (H2 : merge_headers (Some [(b "user-agent", b "client/2")])
                  (Some (Forward._proxy_headers Sample.forward))
               = [(b "User-Agent", b "proxy/1")]) by (vm_compute; reflexivity).
  split; [done|]. split; [done|].
  unfold Stated.proxy_headers_override. simpl req_headers at 2.
  rewrite H1, H2. discriminate.
Qed.

Lemma forward_request_headers_witness :
  lower (b "User-Agent") ∈ lowered_keys [(b "user-agent", b "client/2")]
  ∧ count_key_ci (b "User-Agent")
      (req_headers (Forward.proxy_request Sample.forward
                      (Sample.get Sample.plain [(b "user-agent", b "client/2")])))
    = count_key_ci (b "User-Agent") [(b "user-agent", b "client/2")].
Proof.
  assert (Hin : lower (b "User-Agent") ∈ lowered_keys [(b "user-agent", b "client/2")]).
  { apply elem_of_cons. left. vm_compute. reflexivity. }
  split; [exact Hin|].
  exact (proj2 (proj2 (proj2 (forward_request_headers Sample.forward
           (Sample.get Sample.plain [(b "user-agent", b "client/2")])))) _ Hin).
Defined.

End ForwardProps.

Module FactoryProps.
Import HTTPProxy.

(** C9: the factory builds a forwarding connection exactly when the
    destination's scheme is [http], a tunnel otherwise, whatever the proxy
    is; either is bound to the destination and to the proxy's settings, and
    serves no other origin. *)
Theorem create_connection_by_scheme (self : HTTPProxy.t) (origin : Origin) :
  is_forward (create_connection self origin)
    = bool_decide (origin_scheme origin = b "http")
  ∧ (∀ other : HTTPProxy.t,
       is_forward (create_connection other origin)
       = is_forward (create_connection self origin))
  ∧ remote_origin (create_connection self origin) = origin
  ∧ (∀ o, can_handle_request (create_connection self origin) o = true ↔ o = origin)
  ∧ match create_connection self origin with
    | ForwardHTTPConnection f =>
        Forward._proxy_origin f = _proxy_origin self
        ∧ Forward._proxy_headers f = _proxy_headers self
        ∧ Forward._connection f
          = AsyncHTTPConnection (_proxy_origin self) (_proxy_ssl_context self)
                                (_settings self) false
    | TunnelHTTPConnection u =>
        Tunnel._proxy_origin u = _proxy_origin self
        ∧ Tunnel._proxy_headers u = _proxy_headers self
        ∧ Tunnel._ssl_context u = _ssl_context self
        ∧ Tunnel._proxy_ssl_context u = _proxy_ssl_context self
        ∧ Tunnel._http1 u = _http1 self ∧ Tunnel._http2 u = _http2 self
        ∧ Tunnel._connected u = false
        ∧ Tunnel._connection u
          = AsyncHTTPConnection (_proxy_origin self) (_proxy_ssl_context self)
                                (_settings self) false
    end.
Proof.
  unfold create_connection.
  split; [by case_bool_decide|].
  split; [intros other; by case_bool_decide|].
  split; [by case_bool_decide|].
  split.
  - intros o. case_bool_decide; simpl;
      unfold Forward.can_handle_request, Tunnel.can_handle_request, origin_eqb; simpl;
      apply bool_decide_eq_true.
  - by case_bool_decide.
Qed.

(** C10, as the code has it: a connection accepts an origin exactly when it
    is the destination it is bound to; the proxy's own origin is turned
    down exactly when it differs from that destination. *)
Theorem can_handle_request_iff (c : ProxyConnection) (origin : Origin) :
  (can_handle_request c origin = true ↔ origin = remote_origin c)
  ∧ (can_handle_request c (Stated.proxy_origin c) = false
     ↔ Stated.proxy_origin c ≠ remote_origin c).
Proof.
  destruct c as [f|u]; simpl;
    unfold Forward.can_handle_request, Tunnel.can_handle_request, origin_eqb;
    split; first [apply bool_decide_eq_true | apply bool_decide_eq_false].
Qed.

(** C10 as written fails for a connection whose destination is the proxy
    itself: the proxy's own origin is accepted. *)
Lemma proxy_origin_can_match :
  can_handle_request (create_connection Sample.pool Sample.proxy)
    (Stated.proxy_origin (create_connection Sample.pool Sample.proxy)) = true
  ∧ ¬ Stated.proxy_origin_never_matches (create_connection Sample.pool Sample.proxy).
Proof.
  assert (H : can_handle_request (create_connection Sample.pool Sample.proxy)
    (Stated.proxy_origin (create_connection Sample.pool Sample.proxy)) = true)
    by (vm_compute; reflexivity).
  split; [done|]. unfold Stated.proxy_origin_never_matches. rewrite H. discriminate.
Qed.

End FactoryProps.

(** ** The tunnel connection *)

Module TunnelProps.
Import Tunnel Run Invariant RunFacts.

Lemma rejected_iff (r : Response) :
  rejected r = true ↔ resp_status r < 200 ∨ 299 < resp_status r.
Proof. unfold rejected. rewrite orb_true_iff, !Z.ltb_lt. done. Qed.

Lemma decode_ascii_ignore_bytes (s : bytes) :
  String.list_byte_of_string (decode_ascii_ignore s)
  = filter (λ c, is_ascii c = true) s.
Proof. unfold decode_ascii_ignore. apply String.list_byte_of_string_of_list_byte. Qed.

Lemma init_unused po ro ctx pctx hs h1 h2 st :
  unused (Tunnel.init po ro ctx pctx hs h1 h2 st).
Proof. done. Qed.

(** C2: when the answer to the CONNECT has a status below 200 or above
    299, the call first awaits the close of the proxy-facing connection,
    with nothing raised yet, and then raises a proxy error whose message is
    the status in decimal, a space, and the reason phrase of the response's
    extensions with every octet outside ASCII left out (empty when there is
    none).  Once the error is raised the connection is closed, so
    [is_closed] answers true; the lock is free and the flag unchanged. *)
Theorem rejected_connect_closes_then_raises
    (s : Sys) (i : nat) (request : Request) (timeout : option float)
    (connect_response : Response) :
  tasks s !! i = Some (AwaitConnect request timeout) →
  resp_status connect_response < 200 ∨ 299 < resp_status connect_response →
  ∃ (reason : string) (s1 s2 : Sys),
    String.list_byte_of_string reason
      = filter (λ c, is_ascii c = true)
          (default [] (ext_reason_phrase (resp_extensions connect_response)))
    ∧ step s i (ConnectDone (inr connect_response)) = Some s1
    ∧ tasks s1 !! i
      = Some (AwaitClose (str_of_int (resp_status connect_response) +:+ " " +:+ reason))
    ∧ self s1 = self s ∧ log s1 = log s
    ∧ step s1 i CloseDone = Some s2
    ∧ tasks s2 !! i
      = Some (Raised (ProxyError
                (str_of_int (resp_status connect_response) +:+ " " +:+ reason)))
    ∧ _connection (self s2) = conn_aclose (_connection (self s))
    ∧ log s2 = Closed i :: log s
    ∧ is_closed (self s2) = true
    ∧ _connected (self s2) = _connected (self s)
    ∧ _connect_lock (self s2) = None.
Proof.
  intros Hi Hstatus. apply rejected_iff in Hstatus.
  assert (Hlt : (i < length (tasks s))%nat) by by eapply lookup_lt_Some.
  exists (decode_ascii_ignore
            (default [] (ext_reason_phrase (resp_extensions connect_response)))).
  eexists. eexists.
  split; [apply decode_ascii_ignore_bytes|].
  split. { unfold step. rewrite Hi. unfold on_connect_response. rewrite Hstatus. done. }
  split. { simpl. by apply list_lookup_insert_eq. }
  split; [done|]. split; [done|].
  split. { unfold step. simpl. rewrite list_lookup_insert_eq by done. done. }
  split. { simpl. apply list_lookup_insert_eq. by rewrite length_insert. }
  split; [done|]. split; [done|].
  split. { unfold is_closed. simpl. by destruct (_connection (self s)). }
  done.
Qed.

Lemma http2_negotiated_iff (stream : NetworkStream) :
  http2_negotiated stream = true ↔ Stated.negotiated stream = Some "h2"%string.
Proof.
  unfold http2_negotiated, Stated.negotiated.
  destruct (ssl_object stream) as [o|]; simpl; [|done].
  apply bool_decide_eq_true.
Qed.

(** C4: when the TLS upgrade returns a stream, the adapter installed over
    it is the HTTP/2 one exactly when ALPN settled on ["h2"] or HTTP/2 is
    enabled with HTTP/1.1 disabled, and the HTTP/1.1 one in every other
    case, so also when the stream has no TLS object or ALPN chose nothing. *)
Theorem adapter_by_alpn_and_flags
    (s : Sys) (i : nat) (request : Request) (stream : NetworkStream) :
  tasks s !! i = Some (AwaitStartTLS request) →
  ∃ s', step s i (StartTLSDone (inr stream)) = Some s'
    ∧ _connected (self s') = true
    ∧ (is_http2 (_connection (self s')) = true
       ↔ Stated.negotiated stream = Some "h2"%string
         ∨ (_http2 (self s) = true ∧ _http1 (self s) = false))
    ∧ (is_http11 (_connection (self s')) = true
       ↔ ¬ (Stated.negotiated stream = Some "h2"%string
            ∨ (_http2 (self s) = true ∧ _http1 (self s) = false)))
    ∧ (_connection (self s')
         = AsyncHTTP2Connection (_remote_origin (self s)) stream
             (_keepalive_expiry (self s)) false
       ∨ _connection (self s')
         = AsyncHTTP11Connection (_remote_origin (self s)) stream
             (_keepalive_expiry (self s)) false)
    ∧ (ssl_object stream = None → _http2 (self s) && negb (_http1 (self s)) = false →
       is_http11 (_connection (self s')) = true).
Proof.
  intros Hi. eexists. split; [unfold step; by rewrite Hi|].
  split; [done|]. simpl. unfold make_adapter.
  pose proof (http2_negotiated_iff stream) as Hn.
  assert (Hnone : ssl_object stream = None → http2_negotiated stream = false).
  { unfold http2_negotiated. by intros ->. }
  destruct (http2_negotiated stream) eqn:Hneg;
    destruct (_http2 (self s)) eqn:H2; destruct (_http1 (self s)) eqn:H1; simpl;
    repeat split; try done; try tauto; auto;
    try (intros; exfalso; intuition congruence);
    try (intros ? [?|[? ?]]; intuition congruence).
Qed.

Lemma same_object_refl c : same_object c c.
Proof. done. Qed.

Lemma same_object_aclose c : same_object (conn_aclose c) c.
Proof. unfold same_object. by destruct c. Qed.

(** What one step does to the flag, the field and the log, from a state
    that satisfies the invariant. *)
Lemma step_flag_and_field (s : Sys) (i : nat) (a : Action) (s' : Sys) :
  inv s → step s i a = Some s' →
  (_connected (self s) = true →
     _connected (self s') = true ∧ _connection (self s') = _connection (self s)
     ∧ connects s' = connects s ∧ upgrades s' = upgrades s
     ∧ installs s' = installs s)
  ∧ (_connected (self s') = false →
       _connected (self s) = false
       ∧ same_object (_connection (self s')) (_connection (self s)))
  ∧ (_connected (self s) = false → _connected (self s') = true →
       is_proxy_facing (_connection (self s)) = true
       ∧ is_http11 (_connection (self s')) || is_http2 (_connection (self s')) = true
       ∧ installs s' = S (installs s)).
Proof.
  intros Hinv Hstep. unfold step in Hstep.
  pose proof (inv_delegate s Hinv) as Hfield.
  destruct (tasks s !! i) as [pc0|] eqn:Hi; [|done].
  destruct pc0, a; try done.
  - destruct (_connect_lock (self s)) eqn:Hl; [done|]. simplify_eq.
    unfold enter. simpl. destruct (_connected (self s)) eqn:Hc; simpl.
    + rewrite Hc. repeat split; try done.
    + rewrite Hc. repeat split; try done.
  - pose proof (inv_holder s Hinv i _ Hi eq_refl) as Hl.
    pose proof (inv_flag s Hinv i Hl) as Hc.
    destruct outcome as [e|connect_response]; simplify_eq.
    + simpl. rewrite Hc. repeat split; try done.
    + unfold on_connect_response.
      destruct (rejected connect_response).
      { simpl. rewrite Hc. repeat split; try done. }
      destruct (ext_network_stream _) as [stream|].
      2:{ simpl. rewrite Hc. repeat split; try done. }
      unfold prepare_ssl_context.
      destruct (_ssl_context (self s)) as [r0|]; simpl;
        destruct (decode_ascii _); simpl; rewrite Hc; repeat split; try done.
  - pose proof (inv_holder s Hinv i _ Hi eq_refl) as Hl.
    pose proof (inv_flag s Hinv i Hl) as Hc.
    simplify_eq. simpl. rewrite Hc. repeat split; try done.
    apply same_object_aclose.
  - pose proof (inv_holder s Hinv i _ Hi eq_refl) as Hl.
    pose proof (inv_flag s Hinv i Hl) as Hc.
    destruct outcome as [e|stream]; simplify_eq.
    + simpl. rewrite Hc. repeat split; try done.
    + simpl. rewrite Hc in *. repeat split; try done.
      unfold make_adapter.
      by destruct (http2_negotiated stream || _http2 (self s) && negb (_http1 (self s))).
  - destruct outcome as [e|response]; simplify_eq; simpl;
      destruct (_connected (self s)); repeat split; try done.
Qed.

Lemma run_connected (more : list (nat * Action)) :
  ∀ s s', inv s → run s more = Some s' → _connected (self s) = true →
  _connected (self s') = true ∧ _connection (self s') = _connection (self s)
  ∧ connects s' = connects s ∧ upgrades s' = upgrades s ∧ installs s' = installs s.
Proof.
  induction more as [|[i a] rest IH]; intros s s' Hinv Hrun Hc; simpl in Hrun.
  - by simplify_eq.
  - destruct (step s i a) as [s1|] eqn:Hstep; [|done].
    destruct (step_flag_and_field s i a s1 Hinv Hstep) as [H1 _].
    destruct (H1 Hc) as (Hc1 & E1 & E2 & E3 & E4).
    destruct (IH s1 s' (step_inv _ _ _ _ Hinv Hstep) Hrun Hc1) as (? & F1 & F2 & F3 & F4).
    repeat split; congruence.
Qed.

Lemma run_unconnected (schedule : list (nat * Action)) :
  ∀ s s', inv s → run s schedule = Some s' → _connected (self s') = false →
  _connected (self s) = false ∧ same_object (_connection (self s')) (_connection (self s)).
Proof.
  induction schedule as [|[i a] rest IH]; intros s s' Hinv Hrun Hc; simpl in Hrun.
  - by simplify_eq.
  - destruct (step s i a) as [s1|] eqn:Hstep; [|done].
    destruct (IH s1 s' (step_inv _ _ _ _ Hinv Hstep) Hrun Hc) as [Hc1 Hsame].
    destruct (step_flag_and_field s i a s1 Hinv Hstep) as (_ & H2 & _).
    destruct (H2 Hc1) as [Hc0 Hsame0]. split; [done|].
    unfold same_object in *. congruence.
Qed.

Lemma adapter_not_proxy_facing c :
  is_proxy_facing c = false → is_http11 c || is_http2 c = true.
Proof. by destruct c. Qed.

Lemma same_object_kind c c' : same_object c c' → is_proxy_facing c = is_proxy_facing c'.
Proof. unfold same_object. destruct c, c'; simpl; congruence. Qed.

(** C5: over any schedule of any number of calls on an unused tunnel: the
    flag starts false with the proxy-facing connection in the field; while
    the flag is false the field holds that same connection, and when it is
    true it holds an HTTP/1.1 or HTTP/2 adapter, one being installed in
    all; once the flag is true it stays true, the field is not assigned
    again and no CONNECT is sent and no TLS upgrade started, whatever runs
    afterwards; a step that sends a CONNECT or starts an upgrade finds the
    flag false, and the field changes object exactly in the step that sets
    the flag. *)
Theorem tunnel_connects_once
    (u : Tunnel.t) (ctxs : gmap ctxref SSLContext) (requests : list Request)
    (schedule : list (nat * Action)) (s : Sys) :
  unused u →
  run (start u ctxs requests) schedule = Some s →
  (_connected u = false ∧ is_proxy_facing (_connection u) = true)
  ∧ (if _connected (self s)
     then is_http11 (_connection (self s)) || is_http2 (_connection (self s)) = true
          ∧ installs s = 1%nat
     else same_object (_connection (self s)) (_connection u) ∧ installs s = 0%nat)
  ∧ (∀ more s', run s more = Some s' → _connected (self s) = true →
       _connected (self s') = true ∧ _connection (self s') = _connection (self s)
       ∧ connects s' = connects s ∧ upgrades s' = upgrades s
       ∧ installs s' = installs s)
  ∧ (∀ i a s', step s i a = Some s' →
       (connects s' ≠ connects s ∨ upgrades s' ≠ upgrades s →
          _connected (self s) = false)
       ∧ (¬ same_object (_connection (self s')) (_connection (self s))
          ↔ _connected (self s) = false ∧ _connected (self s') = true)).
Proof.
  intros Hu Hrun.
  pose proof (run_inv schedule _ _ (start_inv u ctxs requests Hu) Hrun) as Hinv.
  destruct Hu as (Hl & Hc & Hf).
  split; [done|]. split.
  { pose proof (inv_installs s Hinv) as Hn. pose proof (inv_delegate s Hinv) as Hd.
    destruct (_connected (self s)) eqn:Hcs.
    - split; [by apply adapter_not_proxy_facing|done].
    - split; [|done].
      by destruct (run_unconnected schedule _ s
                     (start_inv u ctxs requests (conj Hl (conj Hc Hf))) Hrun Hcs). }
  split.
  { intros more s' Hmore Hcs. by apply (run_connected more s s'). }
  intros i a s' Hstep.
  destruct (step_flag_and_field s i a s' Hinv Hstep) as (H1 & H2 & H3).
  split.
  - intros Hne. destruct (_connected (self s)) eqn:Hcs; [|done].
    destruct (H1 eq_refl) as (_ & _ & E1 & E2 & _). destruct Hne; congruence.
  - split.
    + intros Hdiff. destruct (_connected (self s')) eqn:Hcs'.
      * split; [|done]. destruct (_connected (self s)) eqn:Hcs; [|done].
        destruct (H1 eq_refl) as (_ & E & _). exfalso. apply Hdiff.
        rewrite E. apply same_object_refl.
      * exfalso. apply Hdiff. by apply H2.
    + intros [Hcs Hcs'] Hsame. destruct (H3 Hcs Hcs') as (Hp & Ha & _).
      apply same_object_kind in Hsame. rewrite Hp in Hsame.
      destruct (_connection (self s')); simpl in *; congruence.
Qed.

Lemma frame_refl u m : frame u m m.
Proof. intros r c H. exists c. auto. Qed.

Lemma frame_trans u m1 m2 m3 : frame u m1 m2 → frame u m2 m3 → frame u m1 m3.
Proof.
  intros H12 H23 r c H1.
  destruct (H12 r c H1) as (c2 & H2 & Hh & Hv & Ha).
  destruct (H23 r c2 H2) as (c3 & H3 & Hh' & Hv' & Ha').
  exists c3. split; [done|]. split; [congruence|]. split; [congruence|].
  destruct Ha' as [->|[? ?]]; [done|]. right. done.
Qed.

Lemma frame_prepare (s : Sys) :
  frame (self s) (contexts s) (contexts (prepare_ssl_context s).2)
  ∧ self (prepare_ssl_context s).2 = self s
  ∧ log (prepare_ssl_context s).2 = log s
  ∧ tasks (prepare_ssl_context s).2 = tasks s
  ∧ match _ssl_context (self s) with
    | Some r0 =>
        (prepare_ssl_context s).1 = r0
        ∧ contexts (prepare_ssl_context s).2
          = alter (set_alpn_protocols (offered_protocols (self s))) r0 (contexts s)
    | None =>
        contexts s !! (prepare_ssl_context s).1 = None
        ∧ contexts (prepare_ssl_context s).2
          = <[(prepare_ssl_context s).1 :=
                set_alpn_protocols (offered_protocols (self s)) default_ssl_context_value]>
              (contexts s)
    end.
Proof.
  unfold prepare_ssl_context.
  destruct (_ssl_context (self s)) as [r0|] eqn:Hctx; simpl.
  - split; [|done]. intros r c Hr.
    destruct (decide (r0 = r)) as [->|Hne].
    + exists (set_alpn_protocols (offered_protocols (self s)) c).
      rewrite lookup_alter_eq, Hr. simpl. split; [done|]. split; [done|].
      split; [done|]. right. done.
    + exists c. rewrite lookup_alter_ne by done. auto.
  - assert (Hfresh : contexts s !! fresh (dom (contexts s)) = None).
    { apply not_elem_of_dom. apply is_fresh. }
    rewrite alter_insert_eq. split; [|done].
    intros r c Hr. exists c. rewrite lookup_insert_ne; [auto|].
    intros <-. congruence.
Qed.

Lemma step_frame (s : Sys) (i : nat) (a : Action) (s' : Sys) :
  step s i a = Some s' →
  configuration (self s') = configuration (self s)
  ∧ frame (self s) (contexts s) (contexts s')
  ∧ ∀ j stream r protocols server_hostname timeout,
      log s' = StartTLS j stream r protocols server_hostname timeout :: log s →
      protocols = offered_protocols (self s)
      ∧ decode_ascii (origin_host (_remote_origin (self s))) = Some server_hostname
      ∧ match _ssl_context (self s) with
        | Some r0 =>
            r = r0
            ∧ contexts s' = alter (set_alpn_protocols protocols) r0 (contexts s)
        | None =>
            contexts s !! r = None
            ∧ contexts s'
              = <[r := set_alpn_protocols protocols default_ssl_context_value]> (contexts s)
        end.
Proof.
  intros Hstep. unfold step in Hstep.
  assert (Hlog : ∀ (e : Event) (l : list Event), l ≠ e :: l).
  { intros e l H. apply (f_equal length) in H. simpl in H. lia. }
  destruct (tasks s !! i) as [pc0|] eqn:Hi; [|done].
  destruct pc0, a; try done.
  - destruct (_connect_lock (self s)) eqn:Hl; [done|]. simplify_eq.
    unfold enter. simpl. destruct (_connected (self s)) eqn:Hc; simpl;
      (split; [done|]; split; [apply frame_refl|]); intros; simplify_eq.
  - destruct outcome as [e|connect_response]; simplify_eq.
    { split; [done|]. split; [apply frame_refl|]. simpl. intros ?????? H.
      by apply Hlog in H. }
    unfold on_connect_response.
    destruct (rejected connect_response).
    { split; [done|]. split; [apply frame_refl|]. simpl. intros ?????? H.
      by apply Hlog in H. }
    destruct (ext_network_stream _) as [stream|].
    2:{ split; [done|]. split; [apply frame_refl|]. simpl. intros ?????? H.
        by apply Hlog in H. }
    destruct (frame_prepare s) as (Hf & Hs & Hlg & Ht & Hctx).
    destruct (prepare_ssl_context s) as [r1 s1]. simpl in *.
    rewrite Hs. destruct (decode_ascii _) as [host|] eqn:Hhost; simpl.
    + rewrite Hs, Hlg. split; [done|]. split; [done|].
      intros ?????? H. simplify_eq. split; [done|]. split; [done|]. done.
    + rewrite Hs, Hlg. split; [done|]. split; [done|].
      intros ?????? H. by apply Hlog in H.
  - simplify_eq. simpl. split; [done|]. split; [apply frame_refl|].
    intros; simplify_eq.
  - destruct outcome as [e|stream]; simplify_eq; simpl;
      (split; [done|]; split; [apply frame_refl|]).
    + intros ?????? H. by apply Hlog in H.
    + intros ?????? H. simplify_eq.
  - destruct outcome as [e|response]; simplify_eq; simpl;
      (split; [done|]; split; [apply frame_refl|]);
      intros ?????? H; by apply Hlog in H.
Qed.

Lemma frame_configuration u u' m m' :
  configuration u' = configuration u → frame u' m m' → frame u m m'.
Proof.
  intros Hcfg Hf r c Hr. destruct (Hf r c Hr) as (c' & ? & ? & ? & Ha).
  exists c'. repeat split; try done.
  unfold configuration in Hcfg. injection Hcfg as E1 E2 E3 E4 E5 E6 E7 E8.
  destruct Ha as [?|[Hr' Ha]]; [by left|right].
  unfold offered_protocols in *. rewrite <- E3, <- E8. done.
Qed.

Lemma run_frame (schedule : list (nat * Action)) :
  ∀ s s', run s schedule = Some s' →
  configuration (self s') = configuration (self s)
  ∧ frame (self s) (contexts s) (contexts s').
Proof.
  induction schedule as [|[i a] rest IH]; intros s s' Hrun; simpl in Hrun.
  - simplify_eq. split; [done|apply frame_refl].
  - destruct (step s i a) as [s1|] eqn:Hstep; [|done].
    destruct (step_frame s i a s1 Hstep) as (Hc1 & Hf1 & _).
    destruct (IH s1 s' Hrun) as [Hc2 Hf2].
    split; [congruence|].
    eapply frame_trans; [done|]. by eapply frame_configuration.
Qed.

(** C6, as the code has it: over any schedule the configuration fields of
    the tunnel stay as they were, and of the TLS configuration objects that
    existed before, only the one the tunnel was given can differ, and only
    in its ALPN offer, which the handshake sets; the upgrade uses that
    object, or a fresh default object when none was given, with the offer
    list set on it. *)
Theorem handshake_touches_only_alpn
    (s : Sys) (schedule : list (nat * Action)) (s' : Sys) :
  run s schedule = Some s' →
  configuration (self s') = configuration (self s)
  ∧ frame (self s) (contexts s) (contexts s')
  ∧ ∀ i a s'' j stream r protocols server_hostname timeout,
      step s' i a = Some s'' →
      log s'' = StartTLS j stream r protocols server_hostname timeout :: log s' →
      protocols = offered_protocols (self s)
      ∧ match _ssl_context (self s) with
        | Some r0 =>
            r = r0
            ∧ contexts s'' = alter (set_alpn_protocols protocols) r0 (contexts s')
        | None =>
            contexts s' !! r = None
            ∧ contexts s''
              = <[r := set_alpn_protocols protocols default_ssl_context_value]>
                  (contexts s')
        end.
Proof.
  intros Hrun. destruct (run_frame schedule s s' Hrun) as [Hcfg Hf].
  split; [done|]. split; [done|].
  intros i a s'' j stream r protocols host timeout Hstep Hlog.
  destruct (step_frame s' i a s'' Hstep) as (_ & _ & Huse).
  destruct (Huse j stream r protocols host timeout Hlog) as (Hp & _ & Hctx).
  unfold configuration in Hcfg. injection Hcfg as E1 E2 E3 E4 E5 E6 E7 E8.
  unfold offered_protocols in *. rewrite <- E3, <- E8. done.
Qed.

(** C6 as written fails: the handshake sets the ALPN offer on the caller's
    TLS configuration object. *)
Lemma caller_tls_configuration_is_modified :
  ∃ s', run (start Sample.tunnel Sample.store [Sample.get Sample.remote []])
            [(0%nat, Enter); (0%nat, ConnectDone (inr Sample.accepted))] = Some s'
    ∧ _ssl_context Sample.tunnel = Some 0%nat
    ∧ Sample.store !! 0%nat = Some (mkSSLContext [] true 2)
    ∧ contexts s' !! 0%nat = Some (mkSSLContext ["http/1.1"%string] true 2)
    ∧ ¬ Stated.context_untouched 0
          (start Sample.tunnel Sample.store [Sample.get Sample.remote []]) s'.
Proof.
  eexists. split; [vm_compute; reflexivity|].
  split; [done|]. split; [vm_compute; reflexivity|].
  assert (H : ∀ m : gmap ctxref SSLContext,
            m = {[ 0%nat := mkSSLContext ["http/1.1"%string] true 2 ]} →
            m !! 0%nat = Some (mkSSLContext ["http/1.1"%string] true 2)).
  { intros m ->. apply lookup_singleton_eq. }
  split.
  - apply H. vm_compute. reflexivity.
  - unfold Stated.context_untouched. simpl contexts at 2.
    unfold Sample.store. rewrite lookup_singleton_eq.
    erewrite H; [discriminate|]. vm_compute. reflexivity.
Qed.

Lemma step_length (s : Sys) (i : nat) (a : Action) (s' : Sys) :
  step s i a = Some s' → length (tasks s') = length (tasks s).
Proof.
  intros Hstep. unfold step in Hstep.
  destruct (tasks s !! i) as [pc0|] eqn:Hi; [|done].
  destruct pc0, a; try done.
  - destruct (_connect_lock (self s)); [done|]. simplify_eq.
    unfold enter. simpl. destruct (_connected (self s)); simpl; apply length_insert.
  - destruct outcome as [e|connect_response]; simplify_eq; [apply length_insert|].
    unfold on_connect_response.
    destruct (rejected connect_response); [apply length_insert|].
    destruct (ext_network_stream _); [|apply length_insert].
    destruct (frame_prepare s) as (_ & _ & _ & Ht & _).
    destruct (prepare_ssl_context s) as [r1 s1]. simpl in *.
    destruct (decode_ascii _); simpl; rewrite length_insert; by rewrite Ht.
  - simplify_eq. apply length_insert.
  - destruct outcome; simplify_eq; apply length_insert.
  - destruct outcome; simplify_eq; apply length_insert.
Qed.

Lemma run_length (schedule : list (nat * Action)) :
  ∀ s s', run s schedule = Some s' → length (tasks s') = length (tasks s).
Proof.
  induction schedule as [|[i a] rest IH]; intros s s' Hrun; simpl in Hrun.
  - by simplify_eq.
  - destruct (step s i a) as [s1|] eqn:Hstep; [|done].
    rewrite (IH s1 s' Hrun). by eapply step_length.
Qed.

(** A call that fails inside the guarded block leaves the flag false and
    the lock free. *)
Lemma failed_handshake_leaves_flag (s : Sys) (i : nat) (a : Action) (s' : Sys)
    (pc : Pc) (e : Exception) :
  inv s → step s i a = Some s' →
  tasks s !! i = Some pc → in_handshake pc = true →
  tasks s' !! i = Some (Raised e) →
  _connected (self s') = false ∧ _connect_lock (self s') = None.
Proof.
  intros Hinv Hstep Hi Hpc Hi'.
  pose proof (inv_holder s Hinv i pc Hi Hpc) as Hl.
  pose proof (inv_flag s Hinv i Hl) as Hc.
  assert (Hlt : (i < length (tasks s))%nat) by by eapply lookup_lt_Some.
  unfold step in Hstep. rewrite Hi in Hstep.
  destruct pc, a; try done.
  - destruct outcome as [e'|connect_response]; simplify_eq; [done|].
    revert Hi'. unfold on_connect_response.
    destruct (rejected connect_response).
    { simpl. rewrite list_lookup_insert_eq by done. done. }
    destruct (ext_network_stream _); [|done].
    destruct (frame_prepare s) as (_ & Hs & _ & Ht & _).
    destruct (prepare_ssl_context s) as [r1 s1]. simpl in *.
    rewrite Hs. destruct (decode_ascii _); simpl; rewrite Hs, Ht, ?Hc; [|done].
    rewrite list_lookup_insert_eq by done. done.
  - simplify_eq. done.
  - destruct outcome as [e'|stream]; simplify_eq; [done|].
    simpl in Hi'. rewrite list_lookup_insert_eq in Hi' by done. done.
Qed.

Lemma all_returned_none_raised (s : Sys) :
  Stated.all_returned s = true → raised s = 0%nat.
Proof.
  unfold Stated.all_returned, raised. induction (tasks s) as [|pc l IH]; [done|].
  simpl. intros [Hpc Hl]%andb_true_iff.
  rewrite filter_cons_False; [by apply IH|]. by destruct pc.
Qed.

(** C3, as the code has it: with any number of calls in flight on an
    unused tunnel, at most one call is inside the guarded block, at most
    one handshake completes, and every call past the lock has handed its
    request to the one adapter in place.  When no call has failed, at most
    one CONNECT is sent and one TLS upgrade started, and exactly one of each
    once the tunnel is connected, as it is when all calls have returned.  A
    call that fails inside the block leaves the flag false and the lock
    free, and a call that finds the lock free and the flag false sends a
    CONNECT of its own, whatever happened before. *)
Theorem handshake_shared_by_all_calls
    (u : Tunnel.t) (ctxs : gmap ctxref SSLContext) (requests : list Request)
    (schedule : list (nat * Action)) (s : Sys) :
  unused u →
  run (start u ctxs requests) schedule = Some s →
  length (tasks s) = length requests
  ∧ (∀ i j pci pcj, tasks s !! i = Some pci → tasks s !! j = Some pcj →
       in_handshake pci = true → in_handshake pcj = true → i = j)
  ∧ (installs s ≤ 1)%nat
  ∧ (∀ i pc, tasks s !! i = Some pc → past_lock pc = true →
       _connected (self s) = true ∧ installs s = 1%nat
       ∧ ∃ r, Delegated i (_connection (self s)) r ∈ log s)
  ∧ (raised s = 0%nat →
       (connects s ≤ 1)%nat ∧ (upgrades s ≤ 1)%nat
       ∧ (_connected (self s) = true → connects s = 1%nat ∧ upgrades s = 1%nat))
  ∧ (Stated.all_returned s = true → requests ≠ [] →
       connects s = 1%nat ∧ upgrades s = 1%nat ∧ installs s = 1%nat)
  ∧ (∀ i a s' pc e, step s i a = Some s' →
       tasks s !! i = Some pc → in_handshake pc = true →
       tasks s' !! i = Some (Raised e) →
       _connected (self s') = false ∧ _connect_lock (self s') = None)
  ∧ (∀ i request, tasks s !! i = Some (AtLock request) →
       _connect_lock (self s) = None → _connected (self s) = false →
       ∃ s', step s i Enter = Some s' ∧ connects s' = S (connects s)
             ∧ tasks s' !! i = Some (AwaitConnect request (connect_timeout request))).
Proof.
  intros Hu Hrun.
  pose proof (run_inv schedule _ _ (start_inv u ctxs requests Hu) Hrun) as Hinv.
  pose proof (run_length schedule _ _ Hrun) as Hlen. simpl in Hlen.
  rewrite length_fmap in Hlen.
  pose proof (inv_installs s Hinv) as Hn.
  pose proof (inv_connects s Hinv) as Hcn.
  pose proof (inv_upgrades s Hinv) as Hup.
  pose proof (inv_upgraded s Hinv) as Hpos.
  assert (Hpast : ∀ i pc, tasks s !! i = Some pc → past_lock pc = true →
            _connected (self s) = true ∧ installs s = 1%nat
            ∧ ∃ r, Delegated i (_connection (self s)) r ∈ log s).
  { intros i pc Hi Hpc. pose proof (inv_past s Hinv i pc Hi Hpc) as Hc.
    split; [done|]. split; [by rewrite Hn, Hc|].
    destruct (inv_handed s Hinv i pc Hi Hpc) as (c & r & Hin).
    destruct (inv_delegated s Hinv i c r Hin) as [_ ->]. by exists r. }
  assert (Hquiet : raised s = 0%nat →
            (connects s ≤ 1)%nat ∧ (upgrades s ≤ 1)%nat
            ∧ (_connected (self s) = true → connects s = 1%nat ∧ upgrades s = 1%nat)).
  { intros Hr. rewrite Hr in Hcn. unfold holding, holding_of in Hcn.
    assert (connects s ≤ 1)%nat by (destruct (_ && _); lia).
    split; [done|]. split; [lia|]. intros Hc. specialize (Hpos Hc). lia. }
  split; [done|]. split.
  { intros i j pci pcj Hi Hj Hpi Hpj.
    pose proof (inv_holder s Hinv i pci Hi Hpi).
    pose proof (inv_holder s Hinv j pcj Hj Hpj). congruence. }
  split; [rewrite Hn; destruct (_connected (self s)); lia|].
  split; [done|]. split; [done|]. split.
  { intros Hall Hne. pose proof (all_returned_none_raised s Hall) as Hr.
    destruct (Hquiet Hr) as (_ & _ & Hex).
    destruct (tasks s) as [|pc l] eqn:Ht.
    { destruct requests; [done|]. simpl in Hlen. lia. }
    assert (Hpc : past_lock pc = true).
    { unfold Stated.all_returned in Hall. rewrite Ht in Hall. simpl in Hall.
      apply andb_true_iff in Hall as [Hpc _]. by destruct pc. }
    destruct (Hpast 0%nat pc eq_refl Hpc) as (Hc & Hi1 & _).
    destruct (Hex Hc). done. }
  split.
  { intros i a s' pc e Hstep Hi Hpc Hi'.
    by apply (failed_handshake_leaves_flag s i a s' pc e). }
  intros i request Hi Hl Hc. eexists.
  split; [unfold step; by rewrite Hi, Hl|].
  unfold enter. simpl. rewrite Hc. split.
  - unfold connects. simpl. done.
  - simpl. apply list_lookup_insert_eq. by eapply lookup_lt_Some.
Qed.

(** C3 as written fails.  After a failed TLS upgrade the second call sends
    a second CONNECT, no call returns a response, and the connection is not
    closed; after a CONNECT that the proxy turns down the connection is
    closed, and the second call still sends a CONNECT of its own. *)
Lemma failed_handshake_is_retried_by_later_calls :
  (∃ s, run (start Sample.tunnel Sample.store Sample.two) Sample.upgrade_fails = Some s
     ∧ Stated.all_settled s = true
     ∧ connects s = 2%nat
     ∧ ¬ (Stated.all_returned s = true ∨ is_closed (self s) = true)
     ∧ ¬ Stated.one_handshake_for_all s)
  ∧ (∃ s, run (start Sample.tunnel Sample.store Sample.two) Sample.proxy_denies = Some s
       ∧ Stated.all_settled s = true
       ∧ connects s = 2%nat
       ∧ is_closed (self s) = true
       ∧ ¬ Stated.one_handshake_for_all s).
Proof.
  assert (Hnot : ∀ x y : bool, x = false → y = false → ¬ (x = true ∨ y = true)).
  { intros x y -> -> [?|?]; discriminate. }
  split.
  - eexists. split; [vm_compute; reflexivity|].
    split; [vm_compute; reflexivity|].
    split; [vm_compute; reflexivity|].
    split.
    + apply Hnot; vm_compute; reflexivity.
    + unfold Stated.one_handshake_for_all. intros [_ H].
      revert H. apply Hnot; vm_compute; reflexivity.
  - eexists. split; [vm_compute; reflexivity|].
    split; [vm_compute; reflexivity|].
    split; [vm_compute; reflexivity|].
    split; [vm_compute; reflexivity|].
    unfold Stated.one_handshake_for_all. intros [H _].
    vm_compute in H. discriminate.
Qed.

(** The sample states are states of real runs. *)
Example awaiting_connect_reached :
  run (start Sample.tunnel Sample.store [Sample.get Sample.remote []])
      [(0%nat, Enter)] = Some Sample.awaiting_connect.
Proof. vm_compute. reflexivity. Qed.

Example awaiting_start_tls_reached :
  run (start Sample.tunnel Sample.store [Sample.get Sample.remote []])
      [(0%nat, Enter); (0%nat, ConnectDone (inr Sample.accepted))]
  = Some Sample.awaiting_start_tls.
Proof. vm_compute. reflexivity. Qed.

(** A call that sets the tunnel up and is answered through it; ALPN chose
    ["h2"], so the HTTP/2 adapter is in place. *)
Example call_through_new_tunnel :
  (λ s, (tasks s, is_http2 (_connection (self s)), _connected (self s)))
    <$> handle_async_request Sample.tunnel Sample.store (Sample.get Sample.remote [])
          [Enter; ConnectDone (inr Sample.accepted);
           StartTLSDone (inr (Sample.tls_stream (Some "h2"%string)));
           DelegateDone (inr Sample.ok)]
  = Some ([Returned Sample.ok], true, true).
Proof. vm_compute. reflexivity. Qed.

(** No protocol chosen by ALPN, HTTP/1.1 enabled: the HTTP/1.1 adapter. *)
Example no_alpn_match_uses_http11 :
  (λ s, is_http11 (_connection (self s)))
    <$> handle_async_request Sample.tunnel Sample.store (Sample.get Sample.remote [])
          [Enter; ConnectDone (inr Sample.accepted);
           StartTLSDone (inr (Sample.tls_stream None))]
  = Some true.
Proof. vm_compute. reflexivity. Qed.

(** A 407 answer: the message names the status and the reason phrase. *)
Example denied_message :
  tasks <$> handle_async_request Sample.tunnel Sample.store (Sample.get Sample.remote [])
              [Enter; ConnectDone (inr Sample.denied); CloseDone]
  = Some [Raised (ProxyError "407 Proxy Authentication Required")].
Proof. vm_compute. reflexivity. Qed.

(** Octets outside ASCII in the reason phrase are left out. *)
Example reason_phrase_is_decoded_permissively :
  proxy_error_message
    (mkResponse 502 [] [] (mkExtensions None (Some [x42; xff; x61; xc3; x64]%byte) None))
  = "502 Bad"%string.
Proof. vm_compute. reflexivity. Qed.

Lemma rejected_connect_closes_then_raises_witness :
  tasks Sample.awaiting_connect !! 0%nat
    = Some (AwaitConnect (Sample.get Sample.remote []) None)
  ∧ (resp_status Sample.denied < 200 ∨ 299 < resp_status Sample.denied)
  ∧ ∃ (reason : string) (s1 s2 : Sys),
      String.list_byte_of_string reason
        = filter (λ c, is_ascii c = true)
            (default [] (ext_reason_phrase (resp_extensions Sample.denied)))
      ∧ step Sample.awaiting_connect 0 (ConnectDone (inr Sample.denied)) = Some s1
      ∧ tasks s1 !! 0%nat
        = Some (AwaitClose (str_of_int (resp_status Sample.denied) +:+ " " +:+ reason))
      ∧ self s1 = self Sample.awaiting_connect ∧ log s1 = log Sample.awaiting_connect
      ∧ step s1 0 CloseDone = Some s2
      ∧ tasks s2 !! 0%nat
        = Some (Raised (ProxyError
                  (str_of_int (resp_status Sample.denied) +:+ " " +:+ reason)))
      ∧ _connection (self s2) = conn_aclose (_connection (self Sample.awaiting_connect))
      ∧ log s2 = Closed 0 :: log Sample.awaiting_connect
      ∧ is_closed (self s2) = true
      ∧ _connected (self s2) = _connected (self Sample.awaiting_connect)
      ∧ _connect_lock (self s2) = None.
Proof.
  split; [reflexivity|]. split; [right; reflexivity|].
  apply (rejected_connect_closes_then_raises Sample.awaiting_connect 0
           (Sample.get Sample.remote []) None Sample.denied);
    [reflexivity | right; reflexivity].
Defined.

Lemma adapter_by_alpn_and_flags_witness :
  tasks Sample.awaiting_start_tls !! 0%nat
    = Some (AwaitStartTLS (Sample.get Sample.remote []))
  ∧ ∃ s', step Sample.awaiting_start_tls 0
            (StartTLSDone (inr (Sample.tls_stream (Some "h2"%string)))) = Some s'
          ∧ _connected (self s') = true.
Proof.
  split; [reflexivity|].
  destruct (adapter_by_alpn_and_flags Sample.awaiting_start_tls 0
              (Sample.get Sample.remote []) (Sample.tls_stream (Some "h2"%string))
              eq_refl) as (s' & Hstep & Hc & _).
  exists s'. split; [exact Hstep | exact Hc].
Defined.

Lemma tunnel_connects_once_witness :
  unused Sample.tunnel
  ∧ run (start Sample.tunnel Sample.store Sample.two) Sample.both_succeed
    = Some Sample.both_done
  ∧ (if _connected (self Sample.both_done)
     then is_http11 (_connection (self Sample.both_done))
          || is_http2 (_connection (self Sample.both_done)) = true
          ∧ installs Sample.both_done = 1%nat
     else same_object (_connection (self Sample.both_done)) (_connection Sample.tunnel)
          ∧ installs Sample.both_done = 0%nat).
Proof.
  assert (Hu : unused Sample.tunnel) by apply init_unused.
  assert (Hrun : run (start Sample.tunnel Sample.store Sample.two) Sample.both_succeed
                 = Some Sample.both_done) by (vm_compute; reflexivity).
  split; [exact Hu|]. split; [exact Hrun|].
  exact (proj1 (proj2 (tunnel_connects_once Sample.tunnel Sample.store Sample.two
                         Sample.both_succeed Sample.both_done Hu Hrun))).
Defined.

Lemma handshake_touches_only_alpn_witness :
  run (start Sample.tunnel Sample.store Sample.two) Sample.both_succeed
    = Some Sample.both_done
  ∧ configuration (self Sample.both_done) = configuration Sample.tunnel
  ∧ frame Sample.tunnel Sample.store (contexts Sample.both_done).
Proof.
  assert (Hrun : run (start Sample.tunnel Sample.store Sample.two) Sample.both_succeed
                 = Some Sample.both_done) by (vm_compute; reflexivity).
  split; [exact Hrun|].
  destruct (handshake_touches_only_alpn (start Sample.tunnel Sample.store Sample.two)
              Sample.both_succeed Sample.both_done Hrun) as (Hcfg & Hframe & _).
  split; [exact Hcfg | exact Hframe].
Defined.

Lemma handshake_shared_by_all_calls_witness :
  unused Sample.tunnel
  ∧ run (start Sample.tunnel Sample.store Sample.two) Sample.both_succeed
    = Some Sample.both_done
  ∧ Stated.all_returned Sample.both_done = true
  ∧ connects Sample.both_done = 1%nat
  ∧ upgrades Sample.both_done = 1%nat
  ∧ installs Sample.both_done = 1%nat.
Proof.
  assert (Hu : unused Sample.tunnel) by apply init_unused.
  assert (Hrun : run (start Sample.tunnel Sample.store Sample.two) Sample.both_succeed
                 = Some Sample.both_done) by (vm_compute; reflexivity).
  assert (Hall : Stated.all_returned Sample.both_done = true) by (vm_compute; reflexivity).
  split; [exact Hu|]. split; [exact Hrun|]. split; [exact Hall|].
  destruct (handshake_shared_by_all_calls Sample.tunnel Sample.store Sample.two
              Sample.both_succeed Sample.both_done Hu Hrun)
    as (_ & _ & _ & _ & _ & Hdone & _ & _).
  apply Hdone; [exact Hall | discriminate].
Defined.

End TunnelProps.
